(** * Verification of the nof0 template package (pkg/template)

    Shallow embedding of the Go code of [funcs.go] (function library),
    the schema extractor [SimpleDocGenerator] and the Jet engine wrapper
    [JetEngine]. *)

From Stdlib Require Import ZArith Ascii String Bool List.
From Stdlib Require Import PrimFloat FloatOps SpecFloat.
From stdpp Require Import base gmap strings.
From Stdlib Require Import FloatAxioms DecimalPos Lia.

Local Open Scope string_scope.
Local Set Warnings "-inexact-float".

(* ===================================================================== *)
(** ** Go dynamic values ([interface{}]) *)
(* ===================================================================== *)

(** A value stored in a Go [interface{}]: its dynamic type and its value.
    [VNil] is the nil interface. [VOther ty repr] stands for a value of any
    other dynamic type (struct, slice, map, pointer, ...), identified by its
    type name and a textual representation. *)
Inductive GoValue : Type :=
| VNil
| VString (s : string)
| VBool (b : bool)
| VInt (z : Z)
| VInt64 (z : Z)
| VInt32 (z : Z)
| VUint (z : Z)
| VFloat64 (f : float)
| VOther (ty : string) (repr : string).

(** Go's [==] on two [interface{}] operands: equal iff the dynamic types are
    identical and the dynamic values are equal. *)
Definition iface_eq (a b : GoValue) : bool :=
  match a, b with
  | VNil, VNil => true
  | VString x, VString y => String.eqb x y
  | VBool x, VBool y => Bool.eqb x y
  | VInt x, VInt y => Z.eqb x y
  | VInt64 x, VInt64 y => Z.eqb x y
  | VInt32 x, VInt32 y => Z.eqb x y
  | VUint x, VUint y => Z.eqb x y
  | VFloat64 x, VFloat64 y => PrimFloat.eqb x y
  | VOther t x, VOther t' y => String.eqb t t' && String.eqb x y
  | _, _ => false
  end.

(** The untyped constant [0] compared with an [interface{}] operand is
    converted to [interface{}] with its default type [int]. *)
Definition untyped_zero : GoValue := VInt 0.

(** [Default] (funcs.go).  In the case [case int, int64, float64:] the
    variable [v] has the type of the switch operand, [interface{}], so
    [v == 0] is the interface comparison [iface_eq v untyped_zero]. *)
Definition Default (defaultValue value : GoValue) : GoValue :=
  match value with
  | VString v => if String.eqb v "" then defaultValue else value
  | VInt _ | VInt64 _ | VFloat64 _ =>
      if iface_eq value untyped_zero then defaultValue else value
  | VBool v => if negb v then defaultValue else value
  | VNil => defaultValue
  | _ => value
  end.

(** Zero value of each kind, as the spec describes it: empty string, zero of
    any numeric kind, [false], nil. *)
Definition is_zero_value (v : GoValue) : bool :=
  match v with
  | VNil => true
  | VString s => String.eqb s ""
  | VBool b => negb b
  | VInt z | VInt64 z | VInt32 z | VUint z => Z.eqb z 0
  | VFloat64 f => PrimFloat.eqb f 0%float
  | VOther _ _ => false
  end.

(** The zero values [Default] recognises by design: nil, [""], [false] and
    the [int] zero. *)
Definition default_handled_zero (v : GoValue) : bool :=
  match v with
  | VNil => true
  | VString s => String.eqb s ""
  | VBool b => negb b
  | VInt z => Z.eqb z 0
  | _ => false
  end.

(** Zero values of [int64] and [float64], compared against the [int]
    constant [0]. *)
Definition wide_numeric_zero (v : GoValue) : bool :=
  match v with
  | VInt64 z => Z.eqb z 0
  | VFloat64 f => PrimFloat.eqb f 0%float
  | _ => false
  end.

(* ===================================================================== *)
(** ** Go [strings] helpers *)
(* ===================================================================== *)

(** [strings.Split(s, sep)] for a one-byte separator [sep]: the segments
    between the occurrences of [sep]; [Split("", sep)] is [[""]]. *)
Fixpoint Split (s : string) (sep : ascii) : list string :=
  match s with
  | EmptyString => [""]
  | String a r =>
      let parts := Split r sep in
      if Ascii.eqb a sep then "" :: parts
      else match parts with
           | p :: ps => String a p :: ps
           | [] => [String a ""]
           end
  end.

(** [strings.Contains(s, substr)]: [substr] occurs at some index of [s]. *)
Fixpoint Contains (s substr : string) : bool :=
  String.prefix substr s ||
  match s with
  | EmptyString => false
  | String _ r => Contains r substr
  end.

(** Concatenation of a list of strings, [strings.Join(l, "")]. *)
Fixpoint concat_str (l : list string) : string :=
  match l with
  | [] => ""
  | x :: r => x ++ concat_str r
  end.

(** [s] has no byte equal to [c]. *)
Fixpoint no_byte (c : ascii) (s : string) : bool :=
  match s with
  | EmptyString => true
  | String a r => negb (Ascii.eqb a c) && no_byte c r
  end.

(* ===================================================================== *)
(** ** Reflection model and the schema extractor (SimpleDocGenerator) *)
(* ===================================================================== *)

(** A struct tag, as the key/value pairs [key:"value"] it is made of, in the
    order they are written. *)
Definition StructTag := list (string * string).

(** [StructTag.Get(key)]: the value of the first pair with that key, or the
    empty string when the key is absent. *)
Fixpoint tag_Get (tag : StructTag) (key : string) : string :=
  match tag with
  | [] => ""
  | (k, v) :: r => if String.eqb k key then v else tag_Get r key
  end.

(** The key is present in the tag. *)
Definition tag_Has (tag : StructTag) (key : string) : bool :=
  existsb (fun kv => String.eqb kv.1 key) tag.

(** [reflect.StructField], reduced to what [Generate] reads; [sf_Type] is
    [field.Type.String()]. *)
Record StructField := mkStructField {
  sf_Name : string;
  sf_PkgPath : string;
  sf_Type : string;
  sf_Tag : StructTag
}.

(** [StructField.IsExported()]: [f.PkgPath == ""]. *)
Definition IsExported (f : StructField) : bool := String.eqb (sf_PkgPath f) "".

(** [reflect.Type]: struct types with their fields in declaration order,
    pointer types, and every other kind by its name. *)
Inductive RType :=
| TStruct (name : string) (fields : list StructField)
| TPtr (elem : RType)
| TKind (kind : string).

(** [typ.Kind()] printed with [%s]. *)
Definition Kind_String (t : RType) : string :=
  match t with
  | TStruct _ _ => "struct"
  | TPtr _ => "ptr"
  | TKind k => k
  end.

(** [FieldDoc] (types_extended.go). *)
Record FieldDoc := mkFieldDoc {
  fd_Name : string;
  fd_JSONName : string;
  fd_Type : string;
  fd_Description : string;
  fd_Example : GoValue;
  fd_Required : bool
}.

(** [TypeDoc] (types_extended.go). *)
Record TypeDoc := mkTypeDoc {
  td_Name : string;
  td_Description : string;
  td_Fields : list FieldDoc
}.

Definition extractJSONName (field : StructField) : string :=
  let tag := tag_Get (sf_Tag field) "json" in
  if String.eqb tag "" then ""
  else let parts := Split tag "," in
       hd "" parts.

Definition extractFieldDoc (field : StructField) : string :=
  let doc := tag_Get (sf_Tag field) "doc" in
  if negb (String.eqb doc "") then doc
  else let desc := tag_Get (sf_Tag field) "description" in
       if negb (String.eqb desc "") then desc else "".

Definition extractExample (field : StructField) : GoValue :=
  let example := tag_Get (sf_Tag field) "example" in
  if negb (String.eqb example "") then VString example else VString "".

Definition isRequired (field : StructField) : bool :=
  let schema := tag_Get (sf_Tag field) "schema" in
  Contains schema "required".

Definition extractTypeDoc (typ : RType) : string := "".

(** The [FieldDoc] built for an exported field. *)
Definition fieldDocOf (field : StructField) : FieldDoc :=
  {| fd_Name := sf_Name field;
     fd_JSONName := extractJSONName field;
     fd_Type := sf_Type field;
     fd_Description := extractFieldDoc field;
     fd_Example := extractExample field;
     fd_Required := isRequired field |}.

(** The loop over [typ.Field(i)], appending to [doc.Fields]. *)
Fixpoint generate_fields (fields : list StructField) (acc : list FieldDoc)
  : list FieldDoc :=
  match fields with
  | [] => acc
  | field :: rest =>
      if negb (IsExported field) then generate_fields rest acc
      else generate_fields rest (acc ++ [fieldDocOf field])%list
  end.

(** Outcome of a Go call that returns a [TypeDoc] pointer and an error, or panics. *)
Inductive GenResult :=
| GenOk (doc : TypeDoc)
| GenErr (msg : string)
| GenPanic (msg : string).

(** [SimpleDocGenerator.Generate]. The argument is the dynamic type of
    [v interface{}]: [None] when [v] is the nil interface, for which
    [reflect.TypeOf] returns a nil [reflect.Type] and the method call
    [typ.Kind()] panics. *)
Definition Generate (v : option RType) : GenResult :=
  match v with
  | None => GenPanic "runtime error: invalid memory address or nil pointer dereference"
  | Some typ0 =>
      let typ := match typ0 with TPtr e => e | t => t end in
      match typ with
      | TStruct name fields =>
          GenOk {| td_Name := name;
                   td_Description := extractTypeDoc typ;
                   td_Fields := generate_fields fields [] |}
      | t => GenErr ("expected struct, got " ++ Kind_String t)
      end
  end.

(* ===================================================================== *)
(** ** [fmt] verb [%.2f] and FormatCurrency (funcs.go) *)
(* ===================================================================== *)

(** Decimal digits of a [Decimal.uint], most significant first. *)
Fixpoint uint_digits (u : Decimal.uint) : string :=
  match u with
  | Decimal.Nil => ""
  | Decimal.D0 u => String "0" (uint_digits u)
  | Decimal.D1 u => String "1" (uint_digits u)
  | Decimal.D2 u => String "2" (uint_digits u)
  | Decimal.D3 u => String "3" (uint_digits u)
  | Decimal.D4 u => String "4" (uint_digits u)
  | Decimal.D5 u => String "5" (uint_digits u)
  | Decimal.D6 u => String "6" (uint_digits u)
  | Decimal.D7 u => String "7" (uint_digits u)
  | Decimal.D8 u => String "8" (uint_digits u)
  | Decimal.D9 u => String "9" (uint_digits u)
  end.

(** Decimal text of a non-negative integer. *)
Definition Z_decimal (z : Z) : string :=
  match z with
  | Zpos p => uint_digits (Pos.to_uint p)
  | _ => "0"
  end.

(** [q / d] rounded to the nearest integer, ties to even ([0 < d]). *)
Definition div_round_half_even (q d : Z) : Z :=
  let n := Z.div q d in
  let r := Z.modulo q d in
  match Z.compare (2 * r) d with
  | Lt => n
  | Gt => n + 1
  | Eq => if Z.even n then n else n + 1
  end.

(** [m * 2^e * 100] rounded to an integer, ties to even: the number of
    hundredths [strconv] prints for [%.2f]. *)
Definition hundredths (m : positive) (e : Z) : Z :=
  if Z.leb 0 e then Zpos m * 100 * 2 ^ e
  else div_round_half_even (Zpos m * 100) (2 ^ (- e)).

(** [fmt.Sprintf("%.2f", x)] for a float64 [x]: the exact binary value
    rounded half to even at the second decimal, a [-] for a negative sign
    (also on a negative zero), [+Inf], [-Inf] and [NaN] for the specials. *)
Definition Sprintf_2f (x : float) : string :=
  match Prim2SF x with
  | S754_nan => "NaN"
  | S754_infinity s => if s then "-Inf" else "+Inf"
  | S754_zero s => (if s then "-" else "") ++ "0.00"
  | S754_finite s m e =>
      let n := hundredths m e in
      let c := Z.modulo n 100 in
      (if s then "-" else "") ++ Z_decimal (Z.div n 100) ++ "." ++
      Z_decimal (Z.div c 10) ++ Z_decimal (Z.modulo c 10)
  end.

(** [FormatCurrency]: [value >= 1000000] is [1000000 <= value] in IEEE
    comparison (false on NaN). *)
Definition FormatCurrency (value : float) : string :=
  if PrimFloat.leb 1000000%float value then
    "$" ++ Sprintf_2f (PrimFloat.div value 1000000%float) ++ "M"
  else if PrimFloat.leb 1000%float value then
    "$" ++ Sprintf_2f (PrimFloat.div value 1000%float) ++ "K"
  else "$" ++ Sprintf_2f value.

(* ===================================================================== *)
(** ** The rest of the function library (funcs.go) *)
(* ===================================================================== *)

(** [FormatPercent]: [value >= 0] is [0 <= value] (false on NaN, true on a
    negative zero); [%%] prints one [%]. *)
Definition FormatPercent (value : float) : string :=
  if PrimFloat.leb 0%float value then "+" ++ Sprintf_2f value ++ "%"
  else Sprintf_2f value ++ "%".

(** [k] decimal digits of [z mod 10^k], most significant first, with
    leading zeros. *)
Fixpoint digits_fixed (k : nat) (z : Z) : string :=
  match k with
  | O => ""
  | S k' => digits_fixed k' (z / 10) ++ Z_decimal (z mod 10)
  end.

(** [m * 2^e * 10^p] rounded to an integer, ties to even. *)
Definition scaled (p : nat) (m : positive) (e : Z) : Z :=
  if Z.leb 0 e then Zpos m * 10 ^ Z.of_nat p * 2 ^ e
  else div_round_half_even (Zpos m * 10 ^ Z.of_nat p) (2 ^ (- e)).

(** [fmt.Sprintf("%.<p>f", x)]: the exact binary value rounded half to even
    at the [p]-th decimal; no decimal point when [p = 0]. *)
Definition Sprintf_f (p : nat) (x : float) : string :=
  let frac (n : Z) := match p with O => "" | S _ => "." ++ digits_fixed p n end in
  match Prim2SF x with
  | S754_nan => "NaN"
  | S754_infinity s => if s then "-Inf" else "+Inf"
  | S754_zero s => (if s then "-" else "") ++ "0" ++ frac 0%Z
  | S754_finite s m e =>
      let n := scaled p m e in
      (if s then "-" else "") ++ Z_decimal (n / 10 ^ Z.of_nat p) ++
      frac (n mod 10 ^ Z.of_nat p)%Z
  end.

Section FormatFloat.

(** What [fmt] prints for the format ["%.<precision>f"] when it does not read
    the precision as one: a negative [precision] (the verb becomes [-]) or
    one with too many digits; left open. *)
Variable Sprintf_unparsed : Z -> float -> string.

(** [FormatFloat]. [fmt] reads the digits of the precision one at a time and
    gives up as soon as the number read so far exceeds [10^6] with digits
    left, so it reads [precision] exactly when [precision / 10 <= 10^6]. *)
Definition FormatFloat (value : float) (precision : Z) : string :=
  if Z.leb 0 precision && Z.leb (precision / 10) 1000000 then
    Sprintf_f (Z.to_nat precision) value
  else Sprintf_unparsed precision value.

End FormatFloat.

(** A string given by its bytes. *)
Definition bytes (l : list nat) : string :=
  fold_right (fun n s => String (ascii_of_nat n) s) "" l.

(** The three literals of [TrendIndicator], byte for byte as they are in
    funcs.go. *)
Definition trend_up : string := bytes [195; 176; 197; 184; 226; 128; 156; 203; 134].
Definition trend_down : string :=
  bytes [195; 176; 197; 184; 226; 128; 156; 226; 128; 176].
Definition trend_flat : string :=
  bytes [195; 162; 197; 190; 194; 161; 195; 175; 194; 184].

(** The four literals of [ColorCode], byte for byte as they are in
    funcs.go. *)
Definition color_bullish : string := bytes [195; 176; 197; 184; 197; 184; 194; 162].
Definition color_bearish : string :=
  bytes [195; 176; 197; 184; 226; 128; 157; 194; 180].
Definition color_neutral : string := bytes [195; 176; 197; 184; 197; 184; 194; 161].
Definition color_other : string := bytes [195; 162; 197; 161; 194; 170].

(** [ColorCode]: the cases of the [switch] in order. *)
Definition ColorCode (sentiment : string) : string :=
  if String.eqb sentiment "bullish" || String.eqb sentiment "positive" ||
     String.eqb sentiment "up" then color_bullish
  else if String.eqb sentiment "bearish" || String.eqb sentiment "negative" ||
          String.eqb sentiment "down" then color_bearish
  else if String.eqb sentiment "neutral" || String.eqb sentiment "flat" then color_neutral
  else color_other.

Definition TrendIndicator (current previous : float) : string :=
  if PrimFloat.ltb previous current then trend_up
  else if PrimFloat.ltb current previous then trend_down
  else trend_flat.

Definition IsBullish (price ema : float) : bool := PrimFloat.ltb ema price.
Definition IsBearish (price ema : float) : bool := PrimFloat.ltb price ema.
Definition IsOverbought (rsi : float) : bool := PrimFloat.ltb 70%float rsi.
Definition IsOversold (rsi : float) : bool := PrimFloat.ltb rsi 30%float.

(** [strings.Join(elems, sep)]. *)
Fixpoint Join (elems : list string) (sep : string) : string :=
  match elems with
  | [] => ""
  | [x] => x
  | x :: rest => x ++ sep ++ Join rest sep
  end.

Definition JoinFloats (arr : list float) (sep : string) : string :=
  if Nat.eqb (length arr) 0 then ""
  else Join (map Sprintf_2f arr) sep.

(** [fmt.Sprintf("%d", v)]. *)
Definition Sprintf_d (v : Z) : string :=
  if Z.ltb v 0 then "-" ++ Z_decimal (- v) else Z_decimal v.

(** [JoinInts]; the elements are Go [int]s. *)
Definition JoinInts (arr : list Z) (sep : string) : string :=
  if Nat.eqb (length arr) 0 then ""
  else Join (map Sprintf_d arr) sep.

Definition JoinStrings (arr : list string) (sep : string) : string := Join arr sep.

Definition Divide (a b : float) : float :=
  if PrimFloat.eqb b 0%float then 0%float else PrimFloat.div a b.

Definition Abs (v : float) : float :=
  if PrimFloat.ltb v 0%float then PrimFloat.opp v else v.

Definition Min (a b : float) : float := if PrimFloat.ltb a b then a else b.
Definition Max (a b : float) : float := if PrimFloat.ltb b a then a else b.

(** The order of [float]s that are not NaN, by a key in [Z * Z * Z]
    compared lexicographically: [-Inf], the negative numbers, the two
    zeros, the positive numbers, [+Inf]. *)
Section FloatOrder.
Local Open Scope Z_scope.

Definition sf_key (x : spec_float) : Z * Z * Z :=
  match x with
  | S754_infinity true => (0, 0, 0)
  | S754_finite true m e => (1, - e, - Zpos m)
  | S754_zero _ => (2, 0, 0)
  | S754_finite false m e => (3, e, Zpos m)
  | S754_infinity false => (4, 0, 0)
  | S754_nan => (0, 0, 0)
  end.

Definition key_lt (a b : Z * Z * Z) : Prop :=
  let '(a1, a2, a3) := a in let '(b1, b2, b3) := b in
  a1 < b1 \/ (a1 = b1 /\ (a2 < b2 \/ (a2 = b2 /\ a3 < b3))).

Definition key_cmp (a b : Z * Z * Z) : comparison :=
  let '(a1, a2, a3) := a in let '(b1, b2, b3) := b in
  match Z.compare a1 b1 with
  | Eq => match Z.compare a2 b2 with Eq => Z.compare a3 b3 | c => c end
  | c => c
  end.

End FloatOrder.

(* ===================================================================== *)
(** ** Value types (types_extended.go) *)
(* ===================================================================== *)

Record Range := mkRange { r_Min : float; r_Max : float }.

(** [Range.String]: [fmt.Sprintf("%.2f-%.2f", r.Min, r.Max)]. *)
Definition Range_String (r : Range) : string :=
  Sprintf_2f (r_Min r) ++ "-" ++ Sprintf_2f (r_Max r).

Definition Range_IsValid (r : Range) : bool := PrimFloat.ltb (r_Min r) (r_Max r).

Definition Range_Contains (r : Range) (v : float) : bool :=
  PrimFloat.leb (r_Min r) v && PrimFloat.leb v (r_Max r).

(** A Go [int] (64 bits): the result of an arithmetic operation wraps
    around modulo [2^64]. *)
Definition wrap64 (z : Z) : Z := (z + 2 ^ 63) mod 2 ^ 64 - 2 ^ 63.

Record Duration := mkDuration { d_Value : Z; d_Unit : string }.

(** [Duration.Minutes]: [d.Value * 24 * 60] is [(d.Value * 24) * 60], each
    product wrapping around. *)
Definition Minutes (d : Duration) : Z :=
  if String.eqb (d_Unit d) "hours" then wrap64 (d_Value d * 60)
  else if String.eqb (d_Unit d) "days" then wrap64 (wrap64 (d_Value d * 24) * 60)
  else if String.eqb (d_Unit d) "minutes" then d_Value d
  else d_Value d.

(** [Percentage.String]. *)
Definition Percentage_String (p : float) : string := Sprintf_2f p ++ "%".

(* ===================================================================== *)
(** ** Markdown export (SimpleDocGenerator.ExportMarkdown) *)
(* ===================================================================== *)

Section Markdown.

(** [fmt.Sprintf("%v", v)] for a value that is not a string: the printing
    of the [fmt] package, left open; every result below holds for any
    printer. *)
Variable Sprint_v : GoValue -> string.

(** The newline byte [\n]. *)
Definition nl : string := String (ascii_of_nat 10) "".

(** The UTF-8 bytes of ["✓ "]. *)
Definition check_mark : string :=
  String (ascii_of_nat 226) (String (ascii_of_nat 156)
    (String (ascii_of_nat 147) " ")).

(** [formatExample]: [example == nil || example == ""] compares the
    interface with [nil] and with the string [""]. *)
Definition formatExample (example : GoValue) : string :=
  if iface_eq example VNil || iface_eq example (VString "") then ""
  else match example with
       | VString v => if String.eqb v "" then "" else v
       | v => Sprint_v v
       end.

Definition md_header : string :=
  "| Field | Type | Template Variable | Description | Example |" ++ nl ++
  "|-------|------|-------------------|-------------|----------|" ++ nl.

(** The table row written for one field. *)
Definition md_row (field : FieldDoc) : string :=
  let templateVar :=
    if negb (String.eqb (fd_JSONName field) "") &&
       negb (String.eqb (fd_JSONName field) "-")
    then "{{." ++ fd_Name field ++ "}} or {{." ++ fd_JSONName field ++ "}}"
    else "{{." ++ fd_Name field ++ "}}" in
  let required := if fd_Required field then check_mark else "" in
  let example := formatExample (fd_Example field) in
  "| " ++ fd_Name field ++ " | " ++ fd_Type field ++ " | `" ++ templateVar ++
  "` | " ++ required ++ fd_Description field ++ " | `" ++ example ++ "` |" ++ nl.

(** The loop [for _, field := range doc.Fields], writing to the builder. *)
Fixpoint md_rows (fields : list FieldDoc) (buf : string) : string :=
  match fields with
  | [] => buf
  | field :: rest => md_rows rest (buf ++ md_row field)
  end.

Definition ExportMarkdown (doc : TypeDoc) : string :=
  let buf := "# " ++ td_Name doc ++ nl ++ nl in
  let buf := if negb (String.eqb (td_Description doc) "")
             then buf ++ td_Description doc ++ nl ++ nl else buf in
  let buf := buf ++ md_header in
  md_rows (td_Fields doc) buf.

(** [formatExampleForDisplay] (the [doc] command): [len(str)] counts bytes
    and [str[:27]] keeps the first 27 bytes. *)
Definition formatExampleForDisplay (example : GoValue) : string :=
  if iface_eq example VNil || iface_eq example (VString "") then "-"
  else
    let str := match example with VString s => s | v => Sprint_v v end in
    if Nat.ltb 30 (String.length str) then substring 0 27 str ++ "..." else str.

End Markdown.

(* ===================================================================== *)
(** ** The Jet engine (JetEngine) *)
(* ===================================================================== *)

Module Engine.

(** A state monad over the machine state: the engine, the template
    directory and the Go heap. *)
Section JetEngine.

(** Compiled Jet programs, the Jet parser and the Jet runtime belong to the
    github.com/CloudyKit/jet library; they are left open. Parsing is a pure
    function of the source text; executing a program reads the globals of
    the set and the data context and returns the output or a cause. *)
Variable Program : Type.
Variable jet_parse : string -> option Program.
Variable jet_execute : Program -> gmap string GoValue -> GoValue -> string + string.

(** [*jet.Template]: its identity and its compiled program. *)
Record JetTemplate := mkJetTemplate {
  jt_id : positive;
  jt_path : string;
  jt_prog : Program
}.

(** [Template] (types.go); [tp_jet] is [None] for a nil [jet] pointer. *)
Record Template := mkTemplate {
  tp_Name : string;
  tp_Path : string;
  tp_Content : string;
  tp_jet : option JetTemplate
}.

(** [JetEngine]: the development flag and the template cache of its
    [jet.Set], the globals of the set, and the [funcs] map. *)
Record JetEngine := mkJetEngine {
  e_dev : bool;
  e_cache : gmap string JetTemplate;
  e_globals : gmap string GoValue;
  e_funcs : gmap string GoValue
}.

(** The machine state: the engine, the files of the template directory, the
    log of source reads, the heap of [Template] structs, and the counters
    that give fresh heap addresses and fresh Jet template identities. *)
Record State := mkState {
  st_engine : JetEngine;
  st_files : gmap string string;
  st_reads : list string;
  st_heap : gmap positive Template;
  st_next_addr : positive;
  st_next_id : positive
}.

Definition M (A : Type) : Type := State -> A * State.
Definition ret {A : Type} (a : A) : M A := fun s => (a, s).
Definition bind {A B : Type} (m : M A) (k : A -> M B) : M B :=
  fun s => let (a, s') := m s in k a s'.
Definition get : M State := fun s => (s, s).
Definition put (s : State) : M unit := fun _ => (tt, s).

End JetEngine.

Arguments ret {_ _} _ _.
Arguments bind {_ _ _} _ _ _.
Arguments get {_} _.
Arguments put {_} _ _.

Notation "x <- m ;; k" := (bind m (fun x => k))
  (at level 100, m at next level, right associativity).

Section Ops.

Context {Program : Type}.
Variable jet_parse : string -> option Program.
Variable jet_execute : Program -> gmap string GoValue -> GoValue -> string + string.

Abbreviation JetTemplate := (JetTemplate Program).
Abbreviation Template := (Template Program).
Abbreviation State := (State Program).
Abbreviation M := (M Program).

Definition set_engine (s : State) (e : JetEngine Program) : State :=
  mkState _ e (st_files _ s) (st_reads _ s) (st_heap _ s) (st_next_addr _ s) (st_next_id _ s).

(** Errors returned by the engine. *)
Inductive EngineError :=
| ErrInvalidTemplate
| ErrLoad (path cause : string)
| ErrRender (name cause : string).

(** [err.Error()]; [%q] is shown for paths that need no escaping. *)
Definition dq : string := String (ascii_of_nat 34) "".
Definition error_message (e : EngineError) : string :=
  match e with
  | ErrInvalidTemplate => "invalid template"
  | ErrLoad p c => "load template " ++ dq ++ p ++ dq ++ ": " ++ c
  | ErrRender n c => "render template " ++ dq ++ n ++ dq ++ ": " ++ c
  end.

(** Modelled from the spec: the file loader of the Jet [Set] (outside this
    repository) reads the source of [path]; the read is logged. *)
Definition read_source (path : string) : M (option string) :=
  s <- get ;;
  match st_files _ s !! path with
  | None => ret None
  | Some src =>
      _ <- put (mkState _ (st_engine _ s) (st_files _ s) (st_reads _ s ++ [path])%list
                 (st_heap _ s) (st_next_addr _ s) (st_next_id _ s)) ;;
      ret (Some src)
  end.

(** Modelled from the spec: a fresh [*jet.Template] identity. *)
Definition fresh_id : M positive :=
  s <- get ;;
  _ <- put (mkState _ (st_engine _ s) (st_files _ s) (st_reads _ s) (st_heap _ s)
             (st_next_addr _ s) (Pos.succ (st_next_id _ s))) ;;
  ret (st_next_id _ s).

(** Modelled from the spec: [Set.GetTemplate] of the Jet library. Outside
    development mode a cached template is returned as it is; otherwise the
    source is read and parsed, and outside development mode the result is
    cached. A failed read or parse caches nothing. *)
Definition GetTemplate (path : string) : M (JetTemplate + string) :=
  s <- get ;;
  let e := st_engine _ s in
  match (if e_dev _ e then None else e_cache _ e !! path) with
  | Some t => ret (inl t)
  | None =>
      osrc <- read_source path ;;
      match osrc with
      | None => ret (inr "template not found")
      | Some src =>
          match jet_parse src with
          | None => ret (inr "parse error")
          | Some prog =>
              id <- fresh_id ;;
              let t := mkJetTemplate _ id path prog in
              s' <- get ;;
              let e' := st_engine _ s' in
              _ <- (if e_dev _ e' then ret tt
                    else put (set_engine s' (mkJetEngine _ (e_dev _ e')
                               (<[path := t]> (e_cache _ e')) (e_globals _ e')
                               (e_funcs _ e')))) ;;
              ret (inl t)
          end
      end
  end.

(** [&Template{...}]: a new struct on the heap, at a fresh address. *)
Definition alloc (t : Template) : M positive :=
  s <- get ;;
  let a := st_next_addr _ s in
  _ <- put (mkState _ (st_engine _ s) (st_files _ s) (st_reads _ s)
             (<[a := t]> (st_heap _ s)) (Pos.succ a) (st_next_id _ s)) ;;
  ret a.

(** [JetEngine.Load]. *)
Definition Load (path : string) : M (positive + EngineError) :=
  r <- GetTemplate path ;;
  match r with
  | inr cause => ret (inr (ErrLoad path cause))
  | inl tmpl =>
      a <- alloc (mkTemplate _ path path "" (Some tmpl)) ;;
      ret (inl a)
  end.

(** [JetEngine.Render]; the template pointer is [None] when nil, else the
    struct it points to. Rendering uses an empty [jet.VarMap]; a failed
    execution discards the partial output. *)
Definition Render (tmpl : option Template) (data : GoValue)
  : M (string * option EngineError) :=
  match tmpl with
  | None => ret ("", Some ErrInvalidTemplate)
  | Some t =>
      match tp_jet _ t with
      | None => ret ("", Some ErrInvalidTemplate)
      | Some jt =>
          s <- get ;;
          match jet_execute (jt_prog _ jt) (e_globals _ (st_engine _ s)) data with
          | inl out => ret (out, None)
          | inr cause => ret ("", Some (ErrRender (tp_Name _ t) cause))
          end
      end
  end.

(** [JetEngine.AddFunc]: [e.funcs[name] = fn] and [e.set.AddGlobal(name, fn)]. *)
Definition AddFunc (name : string) (fn : GoValue) : M unit :=
  s <- get ;;
  let e := st_engine _ s in
  put (set_engine s (mkJetEngine _ (e_dev _ e) (e_cache _ e)
         (<[name := fn]> (e_globals _ e)) (<[name := fn]> (e_funcs _ e)))).

(** [JetEngine.AddFuncs]: [entries] are the entries of the map in the order
    the [range] statement visits them, which Go leaves unspecified. *)
Fixpoint AddFuncs (entries : list (string * GoValue)) : M unit :=
  match entries with
  | [] => ret tt
  | (name, fn) :: rest => _ <- AddFunc name fn ;; AddFuncs rest
  end.

End Ops.




(** [set.AddGlobal(key, value)]: [globals[key] = value]. *)
Definition add_globals (entries : list (string * GoValue)) (g : gmap string GoValue)
  : gmap string GoValue :=
  fold_left (fun g kv => <[kv.1 := kv.2]> g) entries g.





(** The state after a source read, a parse and, outside development mode,
    the insertion of the new template into the cache. *)
Definition after_compile {Program : Type} (st : State Program) (path : string)
    (t : JetTemplate Program) : State Program :=
  let e := st_engine _ st in
  mkState _ (if e_dev _ e then e
             else mkJetEngine _ (e_dev _ e) (<[path := t]> (e_cache _ e))
                    (e_globals _ e) (e_funcs _ e))
    (st_files _ st) (st_reads _ st ++ [path])%list (st_heap _ st)
    (st_next_addr _ st) (Pos.succ (st_next_id _ st)).

(** A template directory with one file, and a parser that accepts every
    source, for concrete runs. *)
Definition demo_parse (src : string) : option string := Some src.

Definition demo_state (dev : bool) : State string :=
  mkState _ (mkJetEngine _ dev ∅ ∅ ∅) {[ "t.jet" := "Hello, {{.Name}}!" ]}
    [] ∅ 1%positive 1%positive.

End Engine.

(* ===================================================================== *)
(** ** The [schema] command (cmd/template) *)
(* ===================================================================== *)

Section CLI.

Variable Sprint_v : GoValue -> string.
(** [reflect.Type.String()], left open. *)
Variable Type_String : RType -> string.
(** [os.WriteFile(name, data, 0644)]: [Some cause] when it fails. *)
Variable WriteFile : string -> string -> option string.

(** [getAvailableTypes]: [entries] are the entries of the registry in the
    order the [range] statement visits them; each value is given by its
    dynamic type. *)
Definition getAvailableTypes (entries : list (string * RType)) : string :=
  fold_left (fun result kv =>
    let t := match kv.2 with TPtr e => e | t => t end in
    result ++ "  - " ++ kv.1 ++ " (" ++ Type_String t ++ ")" ++ nl) entries "".

(** [getTypeByName]: the registry is the map literal of the source, which
    has no entry. *)
Definition getTypeByName (name : string) : RType + string :=
  let types : gmap string RType := ∅ in
  match types !! name with
  | Some t => inl t
  | None => inr ("unknown type: " ++ name ++ nl ++ nl ++ "Available types:" ++ nl ++
                 getAvailableTypes (map_to_list types))
  end.

(** The errors the [schema] command returns, by the [fmt.Errorf] that makes
    them: ["failed to get type %q: %w"], ["failed to generate schema: %w"],
    ["unsupported format: %s"] and ["failed to write output: %w"]. *)
Inductive SchemaError :=
| ErrGetType (name cause : string)
| ErrGenerate (cause : string)
| ErrUnsupportedFormat (format : string)
| ErrWriteOutput (cause : string).

(** Outcome of a command: the text written to stdout and to stderr, an
    error, or a panic. *)
Inductive CmdOutcome :=
| CmdOk (stdout stderr : string)
| CmdErr (err : SchemaError)
| CmdPanic (msg : string).

(** The [RunE] function of [newSchemaCmd] for the argument [typeName] and
    the flags [--format] and [--output]; [ExportMarkdown] never fails. *)
Definition schema_RunE (typeName format output : string) : CmdOutcome :=
  match getTypeByName typeName with
  | inr err => CmdErr (ErrGetType typeName err)
  | inl typeInstance =>
      match Generate (Some typeInstance) with
      | GenPanic msg => CmdPanic msg
      | GenErr msg => CmdErr (ErrGenerate msg)
      | GenOk doc =>
          if String.eqb format "markdown" || String.eqb format "md" then
            let result := ExportMarkdown Sprint_v doc in
            if String.eqb output "" || String.eqb output "-" then CmdOk result ""
            else match WriteFile output result with
                 | Some cause => CmdErr (ErrWriteOutput cause)
                 | None => CmdOk "" ("Schema written to: " ++ output ++ nl)
                 end
          else CmdErr (ErrUnsupportedFormat format)
      end
  end.

End CLI.

(* ===================================================================== *)
(** ** Sample inputs *)
(* ===================================================================== *)

(** A record with three exported fields and one unexported field. *)
Definition sample_fields : list StructField :=
  [mkStructField "Symbol" "" "string"
     [("json", "symbol"); ("doc", "Coin symbol"); ("example", "BTC")];
   mkStructField "Price" "" "float64"
     [("json", "price,omitempty"); ("schema", "required")];
   mkStructField "secret" "main" "string" [];
   mkStructField "Note" "" "string" []].

Definition sample_record : RType := TStruct "CoinData" sample_fields.

(* ===================================================================== *)
(** ** Theorems *)
(* ===================================================================== *)

(** C1 (counterexample): the zero of the numeric kind [int32] is not
    replaced by the default value. *)
Lemma Default_int32_zero_kept :
  ~ (forall d v : GoValue,
       (is_zero_value v = true -> Default d v = d) /\
       (is_zero_value v = false -> Default d v = v)).
Proof.
  intros H. destruct (H (VString "x") (VInt32 0)) as [H1 _].
  specialize (H1 eq_refl). discriminate H1.
Qed.

(** C1 (amended): [Default d v] returns [d] when [v] is nil, [""], [false]
    or the [int] zero, and returns [v] unchanged for every other value,
    leaving the zero of [int64] and [float64] aside. *)
Theorem Default_spec (d v : GoValue) :
  wide_numeric_zero v = false ->
  (default_handled_zero v = true -> Default d v = d) /\
  (default_handled_zero v = false -> Default d v = v).
Proof.
  intros Hw. destruct v as [| s | b | z | z | z | z | f | t r]; simpl in *;
    split; intros H; try discriminate; try reflexivity;
    repeat match goal with
    | H : String.eqb _ _ = true |- _ => apply String.eqb_eq in H; subst
    | H : _ = _ |- _ => rewrite H
    | b : bool |- _ => destruct b
    end; try reflexivity; try discriminate.
Qed.

(** *** Helper lemmas on the strings and the field loop *)

Lemma prefix_spec (p s : string) :
  String.prefix p s = true <-> exists b, s = p ++ b.
Proof.
  revert p. induction s as [| a' s IH]; intros p; destruct p as [| a p]; simpl.
  - split; [intros _; exists ""; reflexivity | reflexivity].
  - split; [discriminate | intros [b Hb]; discriminate Hb].
  - split; [intros _; exists (String a' s); reflexivity | reflexivity].
  - destruct (Ascii.ascii_dec a a') as [-> | Hne].
    + rewrite IH. split; intros [b Hb]; exists b;
        [rewrite Hb | injection Hb]; auto.
    + split; [discriminate | intros [b Hb]; injection Hb; intros; congruence].
Qed.

Lemma Contains_spec (s sub : string) :
  Contains s sub = true <-> exists a b, s = a ++ sub ++ b.
Proof.
  induction s as [| c s IH]; cbn [Contains].
  - rewrite orb_false_r, prefix_spec. split.
    + intros [b Hb]. exists "", b. exact Hb.
    + intros [a [b Hab]]. destruct a; [exists b; exact Hab | discriminate Hab].
  - rewrite orb_true_iff, prefix_spec, IH. split.
    + intros [[b Hb] | [a [b Hab]]].
      * exists "", b. exact Hb.
      * exists (String c a), b. rewrite Hab. reflexivity.
    + intros [a [b Hab]]. destruct a as [| c' a].
      * left. exists b. exact Hab.
      * right. injection Hab as -> Hs. exists a, b. exact Hs.
Qed.

Lemma Split_cons (s : string) (c : ascii) : exists p ps, Split s c = p :: ps.
Proof.
  induction s as [| a s [p [ps IH]]]; simpl; [eauto |].
  rewrite IH. destruct (Ascii.eqb a c); eauto.
Qed.

Lemma Split_first (s : string) (c : ascii) :
  exists rest, s = hd "" (Split s c) ++ rest /\
    no_byte c (hd "" (Split s c)) = true /\
    (rest = "" \/ exists r, rest = String c r).
Proof.
  induction s as [| a s IH]; simpl.
  - exists "". auto.
  - destruct (Ascii.eqb a c) eqn:Hac.
    + apply Ascii.eqb_eq in Hac. subst a. exists (String c s).
      simpl. split; [reflexivity | split; [reflexivity | right; eauto]].
    + destruct (Split_cons s c) as [p [ps Hsp]].
      rewrite Hsp in IH |- *. simpl in *.
      destruct IH as [rest [Hs [Hnb Hrest]]].
      exists rest. rewrite Hac, Hnb. simpl. rewrite Hs. auto.
Qed.

Lemma generate_fields_eq (fields : list StructField) (acc : list FieldDoc) :
  generate_fields fields acc = (acc ++ map fieldDocOf (List.filter IsExported fields))%list.
Proof.
  revert acc. induction fields as [| f fs IH]; intros acc; simpl.
  - rewrite app_nil_r. reflexivity.
  - destruct (IsExported f); simpl; rewrite IH; [| reflexivity].
    rewrite <- app_assoc. reflexivity.
Qed.


Lemma Generate_field_in (v : option RType) (name : string) (fields : list StructField)
    (doc : TypeDoc) (fd : FieldDoc) :
  (v = Some (TStruct name fields) \/ v = Some (TPtr (TStruct name fields))) ->
  Generate v = GenOk doc -> In fd (td_Fields doc) ->
  exists f, In f fields /\ IsExported f = true /\ fd = fieldDocOf f.
Proof.
  intros Hv H. destruct Hv as [-> | ->]; simpl in H; injection H as <-; simpl;
    rewrite generate_fields_eq; simpl; intros Hin;
    apply in_map_iff in Hin as [f [<- Hf]]; apply filter_In in Hf as [Hf Hex]; eauto.
Qed.

(** *** Schema extractor *)

(** C2 (counterexample): a field tagged [json:",omitempty"] has a wire-tag,
    yet its [JSONName] is empty. *)
Lemma Generate_omitempty_empty_wire_name :
  tag_Has [("json", ",omitempty")] "json" = true /\
  match Generate (Some (TStruct "T" [mkStructField "Name" "" "string"
                                       [("json", ",omitempty")]])) with
  | GenOk doc => map fd_JSONName (td_Fields doc) = [""]
  | _ => False
  end.
Proof. split; reflexivity. Qed.

(** C2 (amended): every [FieldDoc] in the result of [Generate] for a struct
    (or a pointer to one) is built from an exported field [f] of that
    struct, and its [JSONName] is empty when the [json] tag of [f] is absent
    or empty; otherwise that tag is
    [JSONName] followed by nothing or by a comma and the rest, and [JSONName]
    holds no comma: it is the first comma-delimited segment of the tag,
    possibly empty. *)
Theorem Generate_JSONName (v : option RType) (name : string) (fields : list StructField)
    (doc : TypeDoc) (fd : FieldDoc) :
  (v = Some (TStruct name fields) \/ v = Some (TPtr (TStruct name fields))) ->
  Generate v = GenOk doc -> In fd (td_Fields doc) ->
  exists f, In f fields /\ IsExported f = true /\ fd = fieldDocOf f /\
    fd_Name fd = sf_Name f /\
    (tag_Get (sf_Tag f) "json" = "" -> fd_JSONName fd = "") /\
    (tag_Get (sf_Tag f) "json" <> "" ->
       exists rest, tag_Get (sf_Tag f) "json" = fd_JSONName fd ++ rest /\
         no_byte "," (fd_JSONName fd) = true /\
         (rest = "" \/ exists r, rest = String "," r)).
Proof.
  intros Hv H Hin. destruct (Generate_field_in v name fields doc fd Hv H Hin) as [f [Hf [Hex ->]]].
  exists f. split; [exact Hf | split; [exact Hex | split; [reflexivity | split; [reflexivity |]]]].
  simpl.
  unfold extractJSONName. split.
  - intros ->. reflexivity.
  - intros Hne. apply String.eqb_neq in Hne. rewrite Hne. apply Split_first.
Qed.

(** C3 (code bug): a nil input panics in [typ.Kind()]. Every other input
    whose type is neither a struct nor a pointer to a struct yields an
    error. *)
Theorem Generate_nil_panics :
  Generate None =
    GenPanic "runtime error: invalid memory address or nil pointer dereference" /\
  forall t : RType,
    (forall name fields, t <> TStruct name fields /\ t <> TPtr (TStruct name fields)) ->
    exists msg, Generate (Some t) = GenErr msg.
Proof.
  split; [reflexivity |]. intros t Ht.
  destruct t as [name fields | [name fields | e | k] | k]; simpl.
  - destruct (Ht name fields) as [H _]. congruence.
  - destruct (Ht name fields) as [_ H]. congruence.
  - eauto.
  - eauto.
  - eauto.
Qed.

(** C4: [Generate] on a struct, or a pointer to one, returns one
    [FieldDoc] per exported field, in declaration order, and none for the
    unexported fields. *)
Theorem Generate_exported_fields (v : RType) (name : string)
    (fields : list StructField) :
  (v = TStruct name fields \/ v = TPtr (TStruct name fields)) ->
  exists doc, Generate (Some v) = GenOk doc /\
    td_Fields doc = map fieldDocOf (List.filter IsExported fields) /\
    map fd_Name (td_Fields doc) = map sf_Name (List.filter IsExported fields).
Proof.
  intros [-> | ->]; simpl; eexists; (split; [reflexivity |]); simpl;
    rewrite generate_fields_eq; simpl; split; try reflexivity;
    rewrite map_map; reflexivity.
Qed.

(** C5: every [FieldDoc] in the result of [Generate] for a struct (or a
    pointer to one) is built from an exported field [f] of that struct, and
    its [Required] is set iff the raw [schema] tag of [f] contains
    ["required"] as a substring; without a [schema] tag it is [false]. *)
Theorem Generate_Required (v : option RType) (name : string) (fields : list StructField)
    (doc : TypeDoc) (fd : FieldDoc) :
  (v = Some (TStruct name fields) \/ v = Some (TPtr (TStruct name fields))) ->
  Generate v = GenOk doc -> In fd (td_Fields doc) ->
  exists f, In f fields /\ IsExported f = true /\ fd = fieldDocOf f /\
    fd_Name fd = sf_Name f /\
    (fd_Required fd = true <->
       exists a b, tag_Get (sf_Tag f) "schema" = a ++ "required" ++ b) /\
    (tag_Has (sf_Tag f) "schema" = false -> fd_Required fd = false).
Proof.
  intros Hv H Hin. destruct (Generate_field_in v name fields doc fd Hv H Hin) as [f [Hf [Hex ->]]].
  exists f. split; [exact Hf | split; [exact Hex | split; [reflexivity | split; [reflexivity |]]]].
  simpl.
  unfold isRequired. split; [apply Contains_spec |].
  intros Hno. assert (Hg : tag_Get (sf_Tag f) "schema" = "").
  { unfold tag_Has in Hno. induction (sf_Tag f) as [| [k x] r IH]; simpl in *;
      [reflexivity |].
    apply orb_false_iff in Hno as [Hk Hr]. rewrite Hk. auto. }
  rewrite Hg. reflexivity.
Qed.

(** *** Markdown export *)

Lemma append_cons_str (x : ascii) (a b : string) :
  String x a ++ b = String x (a ++ b).
Proof. reflexivity. Qed.

Lemma append_assoc_str (a b c : string) : (a ++ b) ++ c = a ++ (b ++ c).
Proof.
  induction a as [| x a IH]; [reflexivity |].
  rewrite !append_cons_str, IH. reflexivity.
Qed.

Lemma append_empty_r (a : string) : a ++ "" = a.
Proof.
  induction a as [| x a IH]; [reflexivity |].
  rewrite append_cons_str, IH. reflexivity.
Qed.

Lemma md_rows_eq (sp : GoValue -> string) (fields : list FieldDoc) (buf : string) :
  md_rows sp fields buf = buf ++ concat_str (map (md_row sp) fields).
Proof.
  revert buf. induction fields as [| f fs IH]; intros buf; simpl.
  - rewrite append_empty_r. reflexivity.
  - rewrite IH, append_assoc_str. reflexivity.
Qed.

(** C6: the Markdown text is ["# " ++ TypeName], the blank line, the
    description paragraph when it is non-empty, the table header, and then
    one row per [FieldDoc], in the order of [td_Fields]; each row is a
    table line [| Name ... |] ended by a newline.  This holds for every
    printer of non-string example values. *)
Theorem ExportMarkdown_layout (sp : GoValue -> string) (doc : TypeDoc) :
  ExportMarkdown sp doc =
    "# " ++ td_Name doc ++ nl ++ nl ++
    (if String.eqb (td_Description doc) "" then ""
     else td_Description doc ++ nl ++ nl) ++
    md_header ++ concat_str (map (md_row sp) (td_Fields doc)) /\
  Forall (fun fd => exists mid, md_row sp fd = "| " ++ fd_Name fd ++ mid ++ " |" ++ nl)
    (td_Fields doc).
Proof.
  split.
  - unfold ExportMarkdown. rewrite md_rows_eq.
    destruct (String.eqb (td_Description doc) ""); cbn [negb];
      rewrite !append_assoc_str; reflexivity.
  - apply Forall_forall. intros fd _. unfold md_row.
    exists (" | " ++ fd_Type fd ++ " | `" ++
            (if negb (String.eqb (fd_JSONName fd) "") &&
                negb (String.eqb (fd_JSONName fd) "-")
             then "{{." ++ fd_Name fd ++ "}} or {{." ++ fd_JSONName fd ++ "}}"
             else "{{." ++ fd_Name fd ++ "}}") ++ "` | " ++
            (if fd_Required fd then check_mark else "") ++
            fd_Description fd ++ " | `" ++ formatExample sp (fd_Example fd) ++ "`").
    rewrite !append_assoc_str. reflexivity.
Qed.

(** *** [%.2f] and FormatCurrency *)

Lemma div_round_half_even_nearest (q d : Z) :
  (0 < d -> Z.abs (2 * (div_round_half_even q d * d - q)) <= d)%Z.
Proof.
  intros Hd. unfold div_round_half_even.
  pose proof (Z.div_mod q d ltac:(lia)) as Hq.
  pose proof (Z.mod_pos_bound q d Hd) as Hr.
  set (n := (q / d)%Z) in *. set (r := (q mod d)%Z) in *.
  destruct (Z.compare_spec (2 * r)%Z d) as [Heq | Hlt | Hgt].
  - destruct (Z.even n); rewrite Z.abs_le; nia.
  - rewrite Z.abs_le; nia.
  - rewrite Z.abs_le; nia.
Qed.

(** C7: [FormatCurrency] picks the [M], [K] or plain form by the two
    thresholds and prints the scaled value with [%.2f]; [%.2f] of a finite
    float prints the hundredths nearest to its exact value (ties to even);
    and the three values of the test table print as expected. *)
Theorem FormatCurrency_spec (v : float) :
  FormatCurrency v =
    (if PrimFloat.leb 1000000%float v then
       "$" ++ Sprintf_2f (PrimFloat.div v 1000000%float) ++ "M"
     else if PrimFloat.leb 1000%float v then
       "$" ++ Sprintf_2f (PrimFloat.div v 1000%float) ++ "K"
     else "$" ++ Sprintf_2f v) /\
  (forall (x : float) (s : bool) (m : positive) (e : Z),
     Prim2SF x = S754_finite s m e ->
     exists n, Sprintf_2f x = (if s then "-" else "") ++ Z_decimal (n / 100)%Z ++
                 "." ++ Z_decimal (n mod 100 / 10)%Z ++ Z_decimal (n mod 100 mod 10)%Z /\
       (0 <= e -> n = Zpos m * 100 * 2 ^ e)%Z /\
       (e < 0 -> Z.abs (2 * (n * 2 ^ (- e) - Zpos m * 100)) <= 2 ^ (- e))%Z) /\
  FormatCurrency 1500000%float = "$1.50M" /\
  FormatCurrency 5500%float = "$5.50K" /\
  FormatCurrency 99.99%float = "$99.99".
Proof.
  split; [reflexivity |]. split; [| vm_compute; auto].
  intros x s m e Hx. unfold Sprintf_2f. rewrite Hx.
  exists (hundredths m e). split; [reflexivity |]. unfold hundredths. split.
  - intros He. apply Z.leb_le in He. rewrite He. reflexivity.
  - intros He. destruct (Z.leb_spec 0 e) as [Hle | _]; [lia |].
    apply div_round_half_even_nearest. apply Z.pow_pos_nonneg; lia.
Qed.

(** *** The Jet engine *)

Module EngineFacts.
Import Engine.

Section Lemmas.
Context {Program : Type}.
Variable jet_parse : string -> option Program.

Lemma GetTemplate_inv (path : string) (st s' : State Program)
    (t : JetTemplate Program) :
  GetTemplate jet_parse path st = (inl t, s') ->
  (e_dev _ (st_engine _ st) = false /\ e_cache _ (st_engine _ st) !! path = Some t /\
   s' = st) \/
  (exists src prog, st_files _ st !! path = Some src /\ jet_parse src = Some prog /\
     (e_dev _ (st_engine _ st) = true \/ e_cache _ (st_engine _ st) !! path = None) /\
     t = mkJetTemplate _ (st_next_id _ st) path prog /\
     s' = after_compile st path t).
Proof.
  destruct st as [[dev cache globals funcs] files reads heap na ni].
  unfold GetTemplate, read_source, fresh_id, set_engine, bind, ret, get, put.
  cbn [st_engine st_files st_reads st_heap st_next_addr st_next_id
       e_dev e_cache e_globals e_funcs].
  destruct dev; cbn.
  - destruct (files !! path) as [src |] eqn:Ef; cbn; [| discriminate].
    destruct (jet_parse src) as [prog |] eqn:Ep; cbn; [| discriminate].
    intros H. injection H as <- <-. right. exists src, prog. auto 10.
  - destruct (cache !! path) as [t' |] eqn:Ec; cbn.
    + intros H. injection H as <- <-. left. auto.
    + destruct (files !! path) as [src |] eqn:Ef; cbn; [| discriminate].
      destruct (jet_parse src) as [prog |] eqn:Ep; cbn; [| discriminate].
      intros H. injection H as <- <-. right. exists src, prog. auto 10.
Qed.

Lemma Load_ok_inv (path : string) (st st1 : State Program) (a : positive) :
  Load jet_parse path st = (inl a, st1) ->
  exists t s', GetTemplate jet_parse path st = (inl t, s') /\
    a = st_next_addr _ s' /\
    st1 = mkState _ (st_engine _ s') (st_files _ s') (st_reads _ s')
            (<[a := mkTemplate _ path path "" (Some t)]> (st_heap _ s'))
            (Pos.succ a) (st_next_id _ s').
Proof.
  unfold Load, bind at 1.
  destruct (GetTemplate jet_parse path st) as [[t | c] s'] eqn:G; cbn;
    [| discriminate].
  intros H. injection H as <- <-. exists t, s'. auto.
Qed.

Lemma GetTemplate_inl_frame (path : string) (st s' : State Program)
    (t : JetTemplate Program) :
  GetTemplate jet_parse path st = (inl t, s') ->
  st_next_addr _ s' = st_next_addr _ st /\ st_heap _ s' = st_heap _ st /\
  e_dev _ (st_engine _ s') = e_dev _ (st_engine _ st).
Proof.
  intros G. apply GetTemplate_inv in G as
    [[_ [_ ->]] | [src [prog [_ [_ [_ [_ ->]]]]]]]; [auto |].
  unfold after_compile. cbn. destruct (e_dev _ (st_engine _ st)) eqn:Ed; auto.
Qed.
End Lemmas.

(** C8 (amended): two successful [Load]s of one path return two distinct
    [Template] pointers. Outside development mode the second does not read
    the source, and both wrap the same cached [*jet.Template]; in
    development mode each reads the source and compiles a new
    [*jet.Template]. *)
Theorem Load_twice {Program : Type} (jet_parse : string -> option Program)
    (path : string) (st st1 st2 : State Program) (a1 a2 : positive) :
  Load jet_parse path st = (inl a1, st1) ->
  Load jet_parse path st1 = (inl a2, st2) ->
  a1 <> a2 /\
  (e_dev _ (st_engine _ st) = false ->
     st_reads _ st2 = st_reads _ st1 /\
     exists jt, st_heap _ st2 !! a1 = Some (mkTemplate _ path path "" (Some jt)) /\
                st_heap _ st2 !! a2 = Some (mkTemplate _ path path "" (Some jt))) /\
  (e_dev _ (st_engine _ st) = true ->
     st_reads _ st1 = (st_reads _ st ++ [path])%list /\
     st_reads _ st2 = (st_reads _ st1 ++ [path])%list /\
     exists jt1 jt2,
       st_heap _ st2 !! a1 = Some (mkTemplate _ path path "" (Some jt1)) /\
       st_heap _ st2 !! a2 = Some (mkTemplate _ path path "" (Some jt2)) /\
       jt_id _ jt1 <> jt_id _ jt2).
Proof.
  intros H1 H2.
  apply Load_ok_inv in H1 as [t1 [s1 [G1 [Ha1 Hst1]]]].
  apply Load_ok_inv in H2 as [t2 [s2 [G2 [Ha2 Hst2]]]].
  pose proof (GetTemplate_inl_frame _ _ _ _ _ G1) as [Fa1 [Fh1 Fd1]].
  pose proof (GetTemplate_inl_frame _ _ _ _ _ G2) as [Fa2 [Fh2 Fd2]].
  apply GetTemplate_inv in G1, G2.
  subst st1 st2. cbn -[GetTemplate] in *.
  assert (Hne : a1 <> a2) by (subst a2; rewrite Fa2; apply Pos.succ_discr).
  assert (Hheap : forall jt1 jt2,
    t1 = jt1 -> t2 = jt2 ->
    (<[a2:=mkTemplate _ path path "" (Some t2)]> (st_heap _ s2)) !! a1 =
      Some (mkTemplate _ path path "" (Some jt1)) /\
    (<[a2:=mkTemplate _ path path "" (Some t2)]> (st_heap _ s2)) !! a2 =
      Some (mkTemplate _ path path "" (Some jt2))).
  { intros jt1 jt2 <- <-. rewrite Fh2. cbn. split.
    - rewrite lookup_insert_ne by congruence. apply lookup_insert_eq.
    - apply lookup_insert_eq. }
  split; [exact Hne | split].
  - intros Hd.
    destruct G1 as
      [[_ [Hc1 ->]] | [src1 [p1 [_ [_ [Hdc1 [Ht1 ->]]]]]]];
    destruct G2 as
      [[_ [Hc2 ->]] | [src2 [p2 [_ [_ [Hdc2 [Ht2 Hs2]]]]]]];
    cbn in *; rewrite ?Hd in *.
    + split; [reflexivity |]. exists t1.
      destruct (Hheap t1 t1 eq_refl) as [Hl1 Hl2]; [congruence |]. auto.
    + destruct Hdc2 as [? | Hc2]; [congruence | congruence].
    + cbn in Hc2. rewrite lookup_insert_eq in Hc2. injection Hc2 as Hc2.
      split; [reflexivity |]. exists t1.
      destruct (Hheap t1 t1 eq_refl) as [Hl1 Hl2]; [congruence |]. auto.
    + cbn in Hdc2. rewrite lookup_insert_eq in Hdc2.
      destruct Hdc2 as [? | ?]; discriminate.
  - intros Hd.
    destruct G1 as
      [[Hd1 _] | [src1 [p1 [_ [_ [_ [Ht1 ->]]]]]]]; [congruence |].
    unfold after_compile in *. cbn in *. rewrite Hd in *. cbn in *.
    destruct G2 as
      [[Hd2 _] | [src2 [p2 [_ [_ [_ [Ht2 ->]]]]]]]; [cbn in Hd2; congruence |].
    split; [reflexivity | split; [reflexivity |]].
    exists t1, t2. destruct (Hheap t1 t2 eq_refl eq_refl) as [Hl1 Hl2].
    split; [exact Hl1 | split; [exact Hl2 |]].
    subst t1 t2. cbn. apply Pos.succ_discr.
Qed.

(** C8 (counterexample): outside development mode, two [Load]s of the
    same path return two different [Template] pointers. *)
Lemma Load_same_path_distinct_pointers :
  ~ (forall (st st1 st2 : State string) (a1 a2 : positive),
       e_dev _ (st_engine _ st) = false ->
       Load demo_parse "t.jet" st = (inl a1, st1) ->
       Load demo_parse "t.jet" st1 = (inl a2, st2) -> a1 = a2).
Proof.
  intros H.
  assert (E : (1 = 2)%positive).
  { apply (H (demo_state false) (snd (Load demo_parse "t.jet" (demo_state false)))
             (snd (Load demo_parse "t.jet"
                     (snd (Load demo_parse "t.jet" (demo_state false)))))).
    - reflexivity.
    - vm_compute. reflexivity.
    - vm_compute. reflexivity. }
  discriminate E.
Qed.

(** C9: [Render] leaves the machine state, and so the function registry,
    the globals and the template cache of the engine, unchanged, whatever
    its outcome. *)
Theorem Render_no_state_change {Program : Type}
    (jet_execute : Program -> gmap string GoValue -> GoValue -> string + string)
    (tmpl : option (Template Program)) (data : GoValue) (st : State Program) :
  snd (Render jet_execute tmpl data st) = st /\
  e_funcs _ (st_engine _ (snd (Render jet_execute tmpl data st))) =
    e_funcs _ (st_engine _ st) /\
  e_cache _ (st_engine _ (snd (Render jet_execute tmpl data st))) =
    e_cache _ (st_engine _ st).
Proof.
  assert (Hs : snd (Render jet_execute tmpl data st) = st).
  { unfold Render, bind, get, ret.
    destruct tmpl as [t |]; [| reflexivity].
    destruct (tp_jet _ t) as [jt |]; [| reflexivity].
    destruct (jet_execute (jt_prog _ jt) (e_globals _ (st_engine _ st)) data);
      reflexivity. }
  rewrite Hs. auto.
Qed.

(** C10: [Render] of a nil template, or of a template whose [jet] program
    is nil, returns the empty output and the error ["invalid template"],
    which names no path, and changes nothing. *)
Theorem Render_invalid_template {Program : Type}
    (jet_execute : Program -> gmap string GoValue -> GoValue -> string + string)
    (tmpl : option (Template Program)) (data : GoValue) (st : State Program) :
  (tmpl = None \/ exists t, tmpl = Some t /\ tp_jet _ t = None) ->
  Render jet_execute tmpl data st = (("", Some ErrInvalidTemplate), st) /\
  error_message ErrInvalidTemplate = "invalid template".
Proof.
  intros [-> | [t [-> Ht]]]; split; try reflexivity.
  unfold Render. rewrite Ht. reflexivity.
Qed.

End EngineFacts.

(* ===================================================================== *)
(** ** The rest of the function library, the value types, the [doc] and
    [schema] commands and the engine *)
(* ===================================================================== *)

Module FuncFacts.
Local Open Scope Z_scope.

Lemma key_cmp_lt a b : key_cmp a b = Lt <-> key_lt a b.
Proof.
  destruct a as [[a1 a2] a3], b as [[b1 b2] b3]; simpl.
  destruct (Z.compare_spec a1 b1), (Z.compare_spec a2 b2), (Z.compare_spec a3 b3);
    split; intros; try lia; try discriminate; try reflexivity.
Qed.

Lemma key_cmp_eq a b : key_cmp a b = Eq <-> a = b.
Proof.
  destruct a as [[a1 a2] a3], b as [[b1 b2] b3]; simpl.
  destruct (Z.compare_spec a1 b1), (Z.compare_spec a2 b2), (Z.compare_spec a3 b3);
    split; intros H'; try discriminate; try (injection H'; intros); subst;
    try lia; try reflexivity.
Qed.

Lemma SFcompare_key (x y : spec_float) :
  x <> S754_nan -> y <> S754_nan ->
  SFcompare x y = Some (key_cmp (sf_key x) (sf_key y)).
Proof.
  intros Hx Hy.
  destruct x as [sx | sx | | sx mx ex]; [| | congruence |];
  destruct y as [sy | sy | | sy my ey]; try congruence;
  try destruct sx; try destruct sy; simpl; try reflexivity.
  rewrite BinInt.Z.compare_opp. destruct (Z.compare_spec ex ey) as [<- | H | H].
  - rewrite Z.compare_refl. simpl.
    reflexivity.
  - rewrite (proj2 (Z.compare_gt_iff ey ex) H). reflexivity.
  - rewrite (proj2 (Z.compare_lt_iff ey ex) H). reflexivity.
Qed.

Lemma key_lt_irrefl a : ~ key_lt a a.
Proof. destruct a as [[a1 a2] a3]; simpl; lia. Qed.

Lemma key_lt_trans a b c : key_lt a b -> key_lt b c -> key_lt a c.
Proof. destruct a as [[a1 a2] a3], b as [[b1 b2] b3], c as [[c1 c2] c3]; simpl; lia. Qed.

Lemma key_lt_total a b : key_lt a b \/ a = b \/ key_lt b a.
Proof.
  destruct a as [[a1 a2] a3], b as [[b1 b2] b3]; simpl.
  destruct (Z.lt_trichotomy a1 b1) as [? | [-> | ?]],
    (Z.lt_trichotomy a2 b2) as [? | [-> | ?]],
    (Z.lt_trichotomy a3 b3) as [? | [-> | ?]];
    first [left; lia | right; left; reflexivity | right; right; lia].
Qed.

Lemma ltb_key (x y : float) :
  Prim2SF x <> S754_nan -> Prim2SF y <> S754_nan ->
  (x <? y)%float = true <-> key_lt (sf_key (Prim2SF x)) (sf_key (Prim2SF y)).
Proof.
  intros Hx Hy. rewrite ltb_spec. unfold SFltb. rewrite SFcompare_key by assumption.
  rewrite <- key_cmp_lt. destruct (key_cmp _ _); split; congruence.
Qed.

Lemma leb_key (x y : float) :
  Prim2SF x <> S754_nan -> Prim2SF y <> S754_nan ->
  (x <=? y)%float = true <->
    key_lt (sf_key (Prim2SF x)) (sf_key (Prim2SF y)) \/ sf_key (Prim2SF x) = sf_key (Prim2SF y).
Proof.
  intros Hx Hy. rewrite leb_spec. unfold SFleb. rewrite SFcompare_key by assumption.
  rewrite <- key_cmp_lt, <- key_cmp_eq. destruct (key_cmp _ _); intuition congruence.
Qed.

Lemma eqb_key (x y : float) :
  Prim2SF x <> S754_nan -> Prim2SF y <> S754_nan ->
  (x =? y)%float = true <-> sf_key (Prim2SF x) = sf_key (Prim2SF y).
Proof.
  intros Hx Hy. rewrite FloatAxioms.eqb_spec. unfold SFeqb. rewrite SFcompare_key by assumption.
  rewrite <- key_cmp_eq. destruct (key_cmp _ _); split; congruence.
Qed.

Lemma ltb_nan (x y : float) :
  Prim2SF x = S754_nan \/ Prim2SF y = S754_nan -> (x <? y)%float = false.
Proof.
  intros H. rewrite ltb_spec. unfold SFltb.
  destruct H as [-> | ->]; [reflexivity |]. destruct (Prim2SF x); reflexivity.
Qed.

Lemma leb_nan (x y : float) :
  Prim2SF x = S754_nan \/ Prim2SF y = S754_nan -> (x <=? y)%float = false.
Proof.
  intros H. rewrite leb_spec. unfold SFleb.
  destruct H as [-> | ->]; [reflexivity |]. destruct (Prim2SF x); reflexivity.
Qed.

Lemma eqb_nan (x y : float) :
  Prim2SF x = S754_nan \/ Prim2SF y = S754_nan -> (x =? y)%float = false.
Proof.
  intros H. rewrite FloatAxioms.eqb_spec. unfold SFeqb.
  destruct H as [-> | ->]; [reflexivity |]. destruct (Prim2SF x); reflexivity.
Qed.

Lemma nan_dec (x : float) : {Prim2SF x = S754_nan} + {Prim2SF x <> S754_nan}.
Proof. destruct (Prim2SF x); [right | right | left | right]; congruence. Qed.

Lemma ltb_asym (x y : float) : (x <? y)%float = true -> (y <? x)%float = false.
Proof.
  intros H. destruct (nan_dec x) as [Hx | Hx]; [rewrite ltb_nan in H; auto; discriminate |].
  destruct (nan_dec y) as [Hy | Hy]; [rewrite ltb_nan in H; auto; discriminate |].
  apply ltb_key in H; auto. destruct (y <? x)%float eqn:E; [| reflexivity].
  apply ltb_key in E; auto. exfalso. eapply key_lt_irrefl, key_lt_trans; eauto.
Qed.

Lemma ltb_trans (x y z : float) :
  (x <? y)%float = true -> (y <? z)%float = true -> (x <? z)%float = true.
Proof.
  intros H1 H2.
  destruct (nan_dec x) as [Hx | Hx]; [rewrite ltb_nan in H1; auto; discriminate |].
  destruct (nan_dec y) as [Hy | Hy]; [rewrite ltb_nan in H1; auto; discriminate |].
  destruct (nan_dec z) as [Hz | Hz]; [rewrite ltb_nan in H2; auto; discriminate |].
  apply ltb_key in H1, H2; auto. apply ltb_key; auto. eapply key_lt_trans; eauto.
Qed.

Lemma leb_trans (x y z : float) :
  (x <=? y)%float = true -> (y <=? z)%float = true -> (x <=? z)%float = true.
Proof.
  intros H1 H2.
  destruct (nan_dec x) as [Hx | Hx]; [rewrite leb_nan in H1; auto; discriminate |].
  destruct (nan_dec y) as [Hy | Hy]; [rewrite leb_nan in H1; auto; discriminate |].
  destruct (nan_dec z) as [Hz | Hz]; [rewrite leb_nan in H2; auto; discriminate |].
  apply leb_key in H1, H2; auto. apply leb_key; auto.
  destruct H1 as [H1 | H1], H2 as [H2 | H2]; rewrite ?H1, ?H2 in *; auto.
  left. eapply key_lt_trans; eauto.
Qed.

Lemma leb_refl (x : float) : Prim2SF x <> S754_nan -> (x <=? x)%float = true.
Proof. intros Hx. apply leb_key; auto. Qed.

Lemma ltb_false_leb (x y : float) :
  Prim2SF x <> S754_nan -> Prim2SF y <> S754_nan ->
  (x <? y)%float = false -> (y <=? x)%float = true.
Proof.
  intros Hx Hy H. apply leb_key; auto.
  destruct (key_lt_total (sf_key (Prim2SF x)) (sf_key (Prim2SF y))) as [L | [E | L]]; auto.
  apply ltb_key in L; auto. congruence.
Qed.

Lemma ltb_leb (x y : float) : (x <? y)%float = true -> (x <=? y)%float = true.
Proof.
  intros H.
  destruct (nan_dec x) as [Hx | Hx]; [rewrite ltb_nan in H; auto; discriminate |].
  destruct (nan_dec y) as [Hy | Hy]; [rewrite ltb_nan in H; auto; discriminate |].
  apply ltb_key in H; auto. apply leb_key; auto.
Qed.

Lemma leb_ltb_false (x y : float) : (x <=? y)%float = true -> (y <? x)%float = false.
Proof.
  intros H.
  destruct (nan_dec x) as [Hx | Hx]; [rewrite leb_nan in H; auto; discriminate |].
  destruct (nan_dec y) as [Hy | Hy]; [rewrite leb_nan in H; auto; discriminate |].
  apply leb_key in H; auto. destruct (y <? x)%float eqn:E; [| reflexivity].
  apply ltb_key in E; auto. exfalso.
  destruct H as [H | H]; [eapply key_lt_irrefl, key_lt_trans; eauto |].
  rewrite H in E. eapply key_lt_irrefl; eauto.
Qed.

(** X1: [IsBullish] and [IsBearish] are never both true; [TrendIndicator]
    gives the up arrow exactly when [IsBullish] holds, the down arrow exactly
    when [IsBearish] holds, and the flat arrow otherwise, which for numbers
    means the two values are equal and which is also the result when either
    is NaN. The three arrows are distinct strings. *)
Theorem TrendIndicator_spec (c p : float) :
  IsBullish c p && IsBearish c p = false /\
  (IsBullish c p = true -> TrendIndicator c p = trend_up) /\
  (IsBearish c p = true -> TrendIndicator c p = trend_down) /\
  (IsBullish c p = false -> IsBearish c p = false -> TrendIndicator c p = trend_flat) /\
  (Prim2SF c <> S754_nan -> Prim2SF p <> S754_nan ->
     IsBullish c p = false -> IsBearish c p = false -> (c =? p)%float = true) /\
  (Prim2SF c = S754_nan \/ Prim2SF p = S754_nan -> TrendIndicator c p = trend_flat) /\
  trend_up <> trend_down /\ trend_up <> trend_flat /\ trend_down <> trend_flat.
Proof.
  unfold IsBullish, IsBearish, TrendIndicator.
  split; [destruct (p <? c)%float eqn:E; [rewrite (ltb_asym _ _ E) | ]; reflexivity |].
  split; [intros ->; reflexivity |].
  split; [intros H; rewrite (ltb_asym _ _ H), H; reflexivity |].
  split; [intros -> ->; reflexivity |].
  split.
  - intros Hc Hp H1 H2. apply eqb_key; auto.
    destruct (key_lt_total (sf_key (Prim2SF c)) (sf_key (Prim2SF p))) as [L | [E | L]]; auto.
    + apply ltb_key in L; auto. congruence.
    + apply ltb_key in L; auto. congruence.
  - split; [intros H; rewrite !ltb_nan by tauto; reflexivity |].
    unfold trend_up, trend_down, trend_flat, bytes; simpl.
    split; [| split]; discriminate.
Qed.

(** X2: an RSI is never both overbought and oversold; NaN is neither, and
    so is every value from 30 to 70, the bounds included. *)
Theorem IsOverbought_IsOversold (rsi : float) :
  IsOverbought rsi && IsOversold rsi = false /\
  (Prim2SF rsi = S754_nan -> IsOverbought rsi = false /\ IsOversold rsi = false) /\
  ((30 <=? rsi)%float = true -> (rsi <=? 70)%float = true ->
     IsOverbought rsi = false /\ IsOversold rsi = false).
Proof.
  unfold IsOverbought, IsOversold. split; [| split].
  - destruct (70 <? rsi)%float eqn:E1; [| reflexivity].
    destruct (rsi <? 30)%float eqn:E2; [| reflexivity].
    pose proof (ltb_trans _ _ _ E1 E2) as E. vm_compute in E. discriminate.
  - intros H. rewrite !ltb_nan by tauto. auto.
  - intros H1 H2. split; apply leb_ltb_false; assumption.
Qed.

(** X3: [Abs] returns its argument unless it is below zero; the result is
    never below zero for a number, NaN stays NaN, and [Abs(-0)] keeps the
    sign bit of the negative zero. *)
Theorem Abs_spec (v : float) :
  ((v <? 0)%float = false -> Abs v = v) /\
  (Prim2SF v <> S754_nan -> (0 <=? Abs v)%float = true) /\
  (Prim2SF v = S754_nan -> Prim2SF (Abs v) = S754_nan) /\
  Prim2SF (Abs (-0)%float) = S754_zero true.
Proof.
  unfold Abs. split; [intros ->; reflexivity |]. split; [| split].
  - intros Hv. destruct (v <? 0)%float eqn:E.
    + assert (H0 : Prim2SF 0%float = S754_zero false) by reflexivity.
      apply ltb_key in E; [| assumption | rewrite H0; discriminate].
      rewrite leb_spec, opp_spec, H0. unfold SFleb.
      rewrite H0 in E. destruct (Prim2SF v) as [s | s | | s m e]; simpl in E;
        try destruct s; simpl in *; try congruence; try lia; reflexivity.
    + apply ltb_false_leb; auto; discriminate.
  - intros Hv. rewrite ltb_nan by auto. exact Hv.
  - vm_compute. reflexivity.
Qed.

(** X4: for numbers, [Min] and [Max] return one of their arguments and bound
    both from below and from above; when either argument is NaN both return
    the second argument, so [Min(NaN, x) = x] but [Min(x, NaN) = NaN]. *)
Theorem Min_Max_spec (a b : float) :
  (Prim2SF a <> S754_nan -> Prim2SF b <> S754_nan ->
     (Min a b = a \/ Min a b = b) /\ (Min a b <=? a)%float = true /\
     (Min a b <=? b)%float = true /\
     (Max a b = a \/ Max a b = b) /\ (a <=? Max a b)%float = true /\
     (b <=? Max a b)%float = true) /\
  (Prim2SF a = S754_nan \/ Prim2SF b = S754_nan -> Min a b = b /\ Max a b = b).
Proof.
  unfold Min, Max. split.
  - intros Ha Hb.
    destruct (a <? b)%float eqn:E1, (b <? a)%float eqn:E2.
    + rewrite (ltb_asym _ _ E1) in E2. discriminate.
    + pose proof (ltb_leb _ _ E1).
      repeat split; auto using leb_refl.
    + pose proof (ltb_leb _ _ E2).
      repeat split; auto using leb_refl.
    + pose proof (ltb_false_leb _ _ Ha Hb E1). pose proof (ltb_false_leb _ _ Hb Ha E2).
      repeat split; auto using leb_refl.
  - intros H. rewrite !ltb_nan by tauto. auto.
Qed.

(** X5: [Divide] by a zero of either sign returns [+0], even for a NaN or
    infinite dividend; by any other divisor it is the float division, so a
    NaN divisor gives NaN. *)
Theorem Divide_spec (a b : float) :
  ((exists s, Prim2SF b = S754_zero s) -> Divide a b = 0%float) /\
  ((forall s, Prim2SF b <> S754_zero s) -> Divide a b = (a / b)%float) /\
  (Prim2SF b = S754_nan -> Prim2SF (Divide a b) = S754_nan).
Proof.
  unfold Divide. split; [| split].
  - intros [s Hs]. rewrite FloatAxioms.eqb_spec, Hs. reflexivity.
  - intros Hs. rewrite FloatAxioms.eqb_spec.
    assert (H0 : Prim2SF 0%float = S754_zero false) by reflexivity. rewrite H0.
    destruct (Prim2SF b) as [s | s | | s m e] eqn:E; simpl;
      try (destruct s); try reflexivity.
    + exfalso. apply (Hs true). reflexivity.
    + exfalso. apply (Hs false). reflexivity.
  - intros Hb. rewrite eqb_nan by auto. rewrite div_spec, Hb.
    destruct (Prim2SF a); reflexivity.
Qed.

(** X6: a range that contains some value has [Min <= Max]; a valid range
    contains both its bounds; a range with [Min = Max] is not valid but
    contains its bound. *)
Theorem Range_spec (r : Range) (v : float) :
  (Range_Contains r v = true -> (r_Min r <=? r_Max r)%float = true) /\
  (Range_IsValid r = true ->
     Range_Contains r (r_Min r) = true /\ Range_Contains r (r_Max r) = true) /\
  ((r_Min r =? r_Max r)%float = true ->
     Range_IsValid r = false /\ Range_Contains r (r_Min r) = true).
Proof.
  unfold Range_Contains, Range_IsValid. split; [| split].
  - intros H. apply andb_true_iff in H as [H1 H2]. eapply leb_trans; eauto.
  - intros H.
    assert (Hmin : Prim2SF (r_Min r) <> S754_nan)
      by (intros E; rewrite ltb_nan in H; auto; discriminate).
    assert (Hmax : Prim2SF (r_Max r) <> S754_nan)
      by (intros E; rewrite ltb_nan in H; auto; discriminate).
    rewrite (ltb_leb _ _ H), !leb_refl by assumption. auto.
  - intros H.
    assert (Hmin : Prim2SF (r_Min r) <> S754_nan)
      by (intros E; rewrite eqb_nan in H; auto; discriminate).
    assert (Hmax : Prim2SF (r_Max r) <> S754_nan)
      by (intros E; rewrite eqb_nan in H; auto; discriminate).
    apply eqb_key in H; auto.
    split.
    + destruct (r_Min r <? r_Max r)%float eqn:E; [| reflexivity].
      apply ltb_key in E; auto. rewrite H in E. exfalso. eapply key_lt_irrefl; eauto.
    + rewrite leb_refl by assumption. simpl. apply leb_key; auto.
Qed.
Local Open Scope string_scope.

Lemma Sprintf_2f_neg (v : float) :
  (v <? 0)%float = true -> exists r, Sprintf_2f v = String "-"%char r.
Proof.
  intros H. destruct (nan_dec v) as [Hv | Hv]; [rewrite ltb_nan in H; auto; discriminate |].
  assert (H0 : Prim2SF 0%float = S754_zero false) by reflexivity.
  apply ltb_key in H; [| assumption | rewrite H0; discriminate].
  rewrite H0 in H. unfold Sprintf_2f.
  destruct (Prim2SF v) as [s | s | | s m e]; try destruct s; simpl in H; try lia;
    try congruence; eexists; reflexivity.
Qed.

(** X7: [FormatPercent] is [Percentage.String] with a [+] in front exactly
    when the value is at least zero; a value below zero starts with [-]. The
    negative zero is at least zero and prints as [+-0.00%], and NaN prints
    as [NaN%] with no sign. *)
Theorem FormatPercent_spec (v : float) :
  FormatPercent v = (if (0 <=? v)%float then "+" else "") ++ Percentage_String v /\
  ((v <? 0)%float = true -> exists r, FormatPercent v = String "-"%char r) /\
  FormatPercent (-0)%float = "+-0.00%" /\
  FormatPercent PrimFloat.nan = "NaN%".
Proof.
  split; [unfold FormatPercent, Percentage_String; destruct (0 <=? v)%float; reflexivity |].
  split; [| split; vm_compute; reflexivity].
  intros H. unfold FormatPercent.
  destruct (0 <=? v)%float eqn:E; [rewrite (leb_ltb_false _ _ E) in H; discriminate |].
  destruct (Sprintf_2f_neg v H) as [r ->]. eexists. reflexivity.
Qed.

Lemma length_append_str (a b : string) : String.length (a ++ b) = (String.length a + String.length b)%nat.
Proof. induction a as [| x a IH]; [reflexivity |]. rewrite append_cons_str. simpl. rewrite IH. reflexivity. Qed.

Lemma Z_decimal_digit (d : Z) : (0 <= d < 10)%Z -> String.length (Z_decimal d) = 1%nat.
Proof.
  intros H.
  assert (d = 0 \/ d = 1 \/ d = 2 \/ d = 3 \/ d = 4 \/ d = 5 \/ d = 6 \/ d = 7 \/ d = 8 \/ d = 9)%Z
    as Hd by lia.
  repeat destruct Hd as [-> | Hd]; try reflexivity. subst. reflexivity.
Qed.

Lemma digits_fixed_length (k : nat) (z : Z) : String.length (digits_fixed k z) = k.
Proof.
  revert z. induction k as [| k IH]; intros z; [reflexivity |]. simpl.
  rewrite length_append_str, IH, Z_decimal_digit by (apply Z.mod_pos_bound; lia). lia.
Qed.

(** X8: [FormatFloat(v, 2)] is the [%.2f] text of [v], for every [v]. *)
Theorem FormatFloat_two (unparsed : Z -> float -> string) (v : float) :
  FormatFloat unparsed v 2 = Sprintf_2f v.
Proof.
  unfold FormatFloat, Sprintf_f, Sprintf_2f. cbn [Z.leb andb Z.to_nat].
  change (Z.leb 0 2 && Z.leb (2 / 10) 1000000)%Z with true. cbn iota.
  change (Z.to_nat 2) with 2%nat. change (10 ^ Z.of_nat 2)%Z with 100%Z.
  destruct (Prim2SF v) as [s | s | | s m e]; try reflexivity.
  assert (Hs : scaled 2 m e = hundredths m e) by reflexivity. rewrite Hs.
  set (n := hundredths m e). cbn [digits_fixed].
  set (c := (n mod 100)%Z).
  assert (Hc : (0 <= c < 100)%Z) by (apply Z.mod_pos_bound; lia).
  rewrite (Z.mod_small (c / 10) 10) by (split; [apply Z.div_pos | apply Z.div_lt_upper_bound]; lia).
  rewrite !append_assoc_str. reflexivity.
Qed.

(** X9: for a precision [p] that [fmt] reads and a finite [v = (-1)^s m 2^e],
    [FormatFloat(v, p)] is the sign, the integer part of [n / 10^p], and,
    when [p > 0], a point and exactly [p] digits of [n mod 10^p], where [n]
    is [m 10^p 2^e] when [e >= 0] and the integer nearest [m 10^p / 2^-e]
    otherwise. *)
Theorem FormatFloat_digits (unparsed : Z -> float -> string) (v : float) (p : Z)
    (s : bool) (m : positive) (e : Z) :
  (0 <= p)%Z -> (p / 10 <= 1000000)%Z -> Prim2SF v = S754_finite s m e ->
  exists n : Z,
    FormatFloat unparsed v p =
      (if s then "-" else "") ++ Z_decimal (n / 10 ^ p)%Z ++
      (if Z.eqb p 0 then "" else "." ++ digits_fixed (Z.to_nat p) (n mod 10 ^ p)%Z) /\
    String.length (digits_fixed (Z.to_nat p) (n mod 10 ^ p)%Z) = Z.to_nat p /\
    (0 <= e -> n = Zpos m * 10 ^ p * 2 ^ e)%Z /\
    (e < 0 -> Z.abs (2 * (n * 2 ^ (- e) - Zpos m * 10 ^ p)) <= 2 ^ (- e))%Z.
Proof.
  intros Hp Hp' Hv. exists (scaled (Z.to_nat p) m e).
  unfold FormatFloat. rewrite (proj2 (Z.leb_le 0 p) Hp), (proj2 (Z.leb_le _ _) Hp'). cbn [andb].
  unfold Sprintf_f. rewrite Hv. rewrite Z2Nat.id by assumption.
  split; [| split; [apply digits_fixed_length |]].
  - destruct (Z.eqb_spec p 0) as [-> | Hne]; [reflexivity |].
    destruct (Z.to_nat p) eqn:Ep; [lia | reflexivity].
  - unfold scaled. rewrite Z2Nat.id by assumption. split.
    + intros He. apply Z.leb_le in He. rewrite He. reflexivity.
    + intros He. destruct (Z.leb_spec 0 e) as [Hle | _]; [lia |].
      apply div_round_half_even_nearest. apply Z.pow_pos_nonneg; lia.
Qed.

Lemma no_byte_app (c : ascii) (a b : string) :
  no_byte c (a ++ b) = no_byte c a && no_byte c b.
Proof. induction a as [| x a IH]; simpl; [reflexivity |]. rewrite IH, andb_assoc. reflexivity. Qed.

Lemma Split_no_byte (x : string) (c : ascii) : no_byte c x = true -> Split x c = [x].
Proof.
  induction x as [| a x IH]; simpl; [reflexivity |].
  intros H. apply andb_prop in H as [Ha Hx]. apply negb_true_iff in Ha.
  rewrite Ha, IH by exact Hx. reflexivity.
Qed.

Lemma Split_app_sep (x r : string) (c : ascii) :
  no_byte c x = true -> Split (x ++ String c r) c = x :: Split r c.
Proof.
  induction x as [| a x IH]; simpl; intros H.
  - rewrite Ascii.eqb_refl. reflexivity.
  - apply andb_prop in H as [Ha Hx]. apply negb_true_iff in Ha.
    rewrite Ha, IH by exact Hx. reflexivity.
Qed.

Lemma Join_Split (l : list string) (c : ascii) :
  l <> [] -> Forall (fun x => no_byte c x = true) l ->
  Split (Join l (String c "")) c = l.
Proof.
  induction l as [| x l IH]; intros Hne Hall; [congruence |].
  inversion Hall as [| ? ? Hx Hl]; subst.
  destruct l as [| y l].
  - apply Split_no_byte. exact Hx.
  - change (Split (x ++ String c (Join (y :: l) (String c ""))) c = x :: y :: l).
    rewrite Split_app_sep by exact Hx.
    rewrite IH; [reflexivity | discriminate | exact Hl].
Qed.

Lemma uint_digits_no_byte (c : ascii) (u : Decimal.uint) :
  no_byte c "0123456789" = true -> no_byte c (uint_digits u) = true.
Proof.
  intros H. simpl in H. rewrite andb_true_r in H. repeat (apply andb_prop in H as [? H]).
  induction u; simpl; rewrite ?IHu, ?andb_true_r; auto.
Qed.

Lemma Z_decimal_no_byte (c : ascii) (z : Z) :
  no_byte c "0123456789" = true -> no_byte c (Z_decimal z) = true.
Proof.
  intros H. destruct z; simpl; [| apply uint_digits_no_byte; exact H |];
  simpl in H; repeat (apply andb_prop in H as [? H]); rewrite ?andb_true_r; auto.
Qed.

Lemma Sprintf_2f_no_comma (v : float) : no_byte "," (Sprintf_2f v) = true.
Proof.
  assert (Hd : forall z, no_byte "," (Z_decimal z) = true)
    by (intros; apply Z_decimal_no_byte; reflexivity).
  unfold Sprintf_2f. destruct (Prim2SF v) as [[] | [] | | [] m e]; try reflexivity;
  rewrite ?no_byte_app, ?Hd; reflexivity.
Qed.

(** X10: splitting the [JoinStrings] of a non-empty list on a one-byte
    separator that occurs in none of its elements gives the list back. *)
Theorem JoinStrings_Split (arr : list string) (c : ascii) :
  arr <> [] -> Forall (fun x => no_byte c x = true) arr ->
  Split (JoinStrings arr (String c "")) c = arr.
Proof. apply Join_Split. Qed.

(** X11: [JoinFloats] joins the [%.2f] texts of the values, and splitting
    its result for [","] on [","] gives those texts back when the list is
    non-empty. *)
Theorem JoinFloats_spec (arr : list float) (sep : string) :
  JoinFloats arr sep = JoinStrings (map Sprintf_2f arr) sep /\
  (arr <> [] -> Split (JoinFloats arr ",") "," = map Sprintf_2f arr).
Proof.
  split.
  - unfold JoinFloats, JoinStrings. destruct arr; reflexivity.
  - intros Hne. unfold JoinFloats. destruct arr as [| x arr]; [congruence |]. simpl Nat.eqb. cbn iota.
    apply Join_Split; [discriminate |]. apply List.Forall_forall. intros y Hy.
    apply in_map_iff in Hy as [v [<- _]]. apply Sprintf_2f_no_comma.
Qed.

Lemma uint_digits_inj (u1 u2 : Decimal.uint) : uint_digits u1 = uint_digits u2 -> u1 = u2.
Proof.
  revert u2. induction u1; intros []; simpl; intros H; try discriminate;
  try reflexivity; injection H as H; f_equal; auto.
Qed.

Lemma Z_decimal_inj (a b : Z) : (0 <= a)%Z -> (0 <= b)%Z -> Z_decimal a = Z_decimal b -> a = b.
Proof.
  intros Ha Hb. destruct a as [| p | p]; destruct b as [| q | q]; try lia; simpl; intros H.
  - exfalso. apply (Unsigned.to_uint_nonzero q). symmetry in H.
    destruct (Pos.to_uint q) as [| [] | | | | | | | | |]; try discriminate; try reflexivity;
    simpl in H; destruct (uint_digits _); discriminate.
  - exfalso. apply (Unsigned.to_uint_nonzero p).
    destruct (Pos.to_uint p) as [| [] | | | | | | | | |]; try discriminate; try reflexivity;
    simpl in H; destruct (uint_digits _); discriminate.
  - f_equal. apply Unsigned.to_uint_inj, uint_digits_inj, H.
Qed.

Lemma Z_decimal_head (z : Z) : exists a r, Z_decimal z = String a r /\ a <> "-"%char.
Proof.
  destruct z as [| p | p]; simpl; try (do 2 eexists; split; [reflexivity | discriminate]).
  pose proof (Unsigned.to_uint_nonnil p) as Hn.
  destruct (Pos.to_uint p); [congruence | ..]; simpl; do 2 eexists; split; try reflexivity; discriminate.
Qed.

Lemma Sprintf_d_inj (a b : Z) : Sprintf_d a = Sprintf_d b -> a = b.
Proof.
  unfold Sprintf_d. destruct (Z.ltb_spec a 0) as [Ha | Ha], (Z.ltb_spec b 0) as [Hb | Hb]; intros H.
  - simpl in H. injection H as H1. apply Z_decimal_inj in H1; lia.
  - destruct (Z_decimal_head b) as [x [r [Hb' Hx]]]. rewrite Hb' in H. simpl in H.
    injection H as Hx' _. congruence.
  - destruct (Z_decimal_head a) as [x [r [Ha' Hx]]]. rewrite Ha' in H. simpl in H.
    injection H as Hx' _. congruence.
  - apply Z_decimal_inj in H; lia.
Qed.

Lemma Sprintf_d_no_comma (v : Z) : no_byte "," (Sprintf_d v) = true.
Proof.
  unfold Sprintf_d. destruct (Z.ltb v 0); simpl; apply Z_decimal_no_byte; reflexivity.
Qed.

Lemma Sprintf_d_nonempty (v : Z) : Sprintf_d v <> "".
Proof.
  unfold Sprintf_d. destruct (Z.ltb v 0); [discriminate |].
  destruct (Z_decimal_head v) as [x [r [-> _]]]. discriminate.
Qed.

(** X12: [JoinInts] with the separator [","] is injective: two lists of
    integers with the same joined text are equal. *)
Theorem JoinInts_injective (a b : list Z) : JoinInts a "," = JoinInts b "," -> a = b.
Proof.
  assert (Hsplit : forall l, l <> [] -> Split (JoinInts l ",") "," = map Sprintf_d l).
  { intros [| x l] Hne; [congruence |]. unfold JoinInts. simpl Nat.eqb. cbn iota.
    apply Join_Split; [discriminate |]. apply List.Forall_forall. intros y Hy.
    apply in_map_iff in Hy as [v [<- _]]. apply Sprintf_d_no_comma. }
  assert (Hne : forall l, l <> [] -> JoinInts l "," <> "").
  { intros [| x l] Hl; [congruence |]. intros H. pose proof (Hsplit _ Hl) as Hs.
    rewrite H in Hs. simpl in Hs. injection Hs as H1 H2. destruct l; [| discriminate].
    exact (Sprintf_d_nonempty x (eq_sym H1)). }
  intros H. destruct a as [| x a], b as [| y b].
  - reflexivity.
  - exfalso. apply (Hne (y :: b)); [discriminate | rewrite <- H; reflexivity].
  - exfalso. apply (Hne (x :: a)); [discriminate | rewrite H; reflexivity].
  - pose proof (Hsplit (x :: a) ltac:(discriminate)) as Ha.
    rewrite H, Hsplit in Ha by discriminate.
    apply (f_equal (fun l => l)) in Ha.
    revert Ha. generalize (x :: a) (y :: b). clear.
    induction l as [| u l IH]; intros [| w k] Hm; simpl in Hm; try discriminate; [reflexivity |].
    injection Hm as H1 H2. apply Sprintf_d_inj in H1. subst. f_equal. apply IH. exact H2.
Qed.

Lemma wrap64_range (z : Z) : (- 2 ^ 63 <= wrap64 z < 2 ^ 63)%Z.
Proof.
  unfold wrap64. pose proof (Z.mod_pos_bound (z + 2 ^ 63) (2 ^ 64) ltac:(lia)). lia.
Qed.

Lemma wrap64_small (z : Z) : (- 2 ^ 63 <= z < 2 ^ 63)%Z -> wrap64 z = z.
Proof. intros H. unfold wrap64. rewrite Z.mod_small by lia. lia. Qed.

Lemma wrap64_congr (z : Z) : ((wrap64 z - z) mod 2 ^ 64 = 0)%Z.
Proof.
  unfold wrap64. rewrite (Z.mod_eq (z + 2 ^ 63)) by lia.
  replace (z + 2 ^ 63 - 2 ^ 64 * ((z + 2 ^ 63) / 2 ^ 64) - 2 ^ 63 - z)%Z
    with (((z + 2 ^ 63) / 2 ^ 64) * - (2 ^ 64))%Z by ring.
  rewrite Z.mul_opp_r, <- Z.mul_opp_l. apply Z_mod_mult.
Qed.

Lemma wrap64_mul (a k : Z) : wrap64 (wrap64 a * k) = wrap64 (a * k).
Proof.
  unfold wrap64 at 2. set (q := ((a + 2 ^ 63) / 2 ^ 64)%Z).
  rewrite (Z.mod_eq (a + 2 ^ 63)) by lia. fold q.
  unfold wrap64. f_equal.
  replace ((a + 2 ^ 63 - 2 ^ 64 * q - 2 ^ 63) * k + 2 ^ 63)%Z
    with (a * k + 2 ^ 63 + (- (q * k)) * 2 ^ 64)%Z by ring.
  apply Z_mod_plus_full.
Qed.

(** X13: [Duration.Minutes] returns [Value] for every unit but ["hours"] and
    ["days"]; for those it returns [Value * 60] and [Value * 1440] wrapped
    to a 64-bit [int], which is in the [int] range, is congruent to the
    exact product modulo [2^64], and equals it when [Value * 1440] fits in
    an [int]. *)
Theorem Minutes_spec (d : Duration) :
  (d_Unit d <> "hours" -> d_Unit d <> "days" -> Minutes d = d_Value d) /\
  (d_Unit d = "hours" -> Minutes d = wrap64 (d_Value d * 60)) /\
  (d_Unit d = "days" -> Minutes d = wrap64 (d_Value d * 1440)) /\
  ((d_Unit d = "hours" \/ d_Unit d = "days") ->
     (- 2 ^ 63 <= Minutes d < 2 ^ 63)%Z /\
     ((Minutes d - d_Value d * (if String.eqb (d_Unit d) "hours" then 60 else 1440)) mod 2 ^ 64 = 0)%Z) /\
  ((- 2 ^ 63 <= d_Value d * 1440 < 2 ^ 63)%Z ->
     Minutes d = (d_Value d * (if String.eqb (d_Unit d) "hours" then 60
                               else if String.eqb (d_Unit d) "days" then 1440 else 1))%Z).
Proof.
  destruct d as [v u]. unfold Minutes. cbn [d_Value d_Unit].
  rewrite wrap64_mul, <- Z.mul_assoc. change (24 * 60)%Z with 1440%Z.
  destruct (String.eqb_spec u "hours") as [Hh | Hh];
  destruct (String.eqb_spec u "days") as [Hd | Hd]; subst; try discriminate.
  - repeat split; intros; try congruence; try apply wrap64_range; try apply wrap64_congr.
    apply wrap64_small. lia.
  - repeat split; intros; try congruence; try apply wrap64_range; try apply wrap64_congr.
    apply wrap64_small. lia.
  - destruct (String.eqb u "minutes"); repeat split; intros; try congruence; try lia;
    destruct H; congruence.
Qed.

Lemma substring_0_length (n : nat) (s : string) :
  String.length (substring 0 n s) = Nat.min n (String.length s).
Proof.
  revert s. induction n as [| n IH]; intros [| a s]; simpl; try reflexivity. rewrite IH. reflexivity.
Qed.

Lemma substring_0_prefix (n : nat) (s : string) : String.prefix (substring 0 n s) s = true.
Proof.
  revert s. induction n as [| n IH]; intros [| a s]; simpl; try reflexivity.
  destruct (ascii_dec a a) as [_ | C]; [apply IH | congruence].
Qed.

(** X14: [formatExampleForDisplay] returns at most 30 bytes: ["-"] for nil
    and for the empty string, a string of at most 30 bytes unchanged, and
    the first 27 bytes of a longer string followed by ["..."]. *)
Theorem formatExampleForDisplay_spec (Sprint_v : GoValue -> string) (example : GoValue) :
  (String.length (formatExampleForDisplay Sprint_v example) <= 30)%nat /\
  ((example = VNil \/ example = VString "") -> formatExampleForDisplay Sprint_v example = "-") /\
  (forall s, example = VString s -> s <> "" -> (String.length s <= 30)%nat ->
     formatExampleForDisplay Sprint_v example = s) /\
  (forall s, example = VString s -> (30 < String.length s)%nat ->
     formatExampleForDisplay Sprint_v example = substring 0 27 s ++ "..." /\
     String.prefix (substring 0 27 s) s = true).
Proof.
  assert (Hlen : (forall str, String.length
            (if Nat.ltb 30 (String.length str) then substring 0 27 str ++ "..." else str) <= 30)%nat).
  { intros str. destruct (Nat.ltb_spec 30 (String.length str)).
    - rewrite length_append_str, substring_0_length. pose proof (Nat.le_min_l 27 (String.length str)). change (String.length "...") with 3%nat. lia.
    - assumption. }
  unfold formatExampleForDisplay. split; [| split; [| split]].
  - destruct (iface_eq example VNil || iface_eq example (VString "")).
    + simpl. lia.
    + apply Hlen.
  - intros [-> | ->]; reflexivity.
  - intros s -> Hne Hs. destruct s as [| a s]; [congruence |].
    rewrite (proj2 (Nat.ltb_ge _ _) Hs). reflexivity.
  - intros s -> Hs. split; [| apply substring_0_prefix].
    assert (s <> "") by (intros ->; simpl in Hs; lia).
    destruct s as [| a s]; [congruence |].
    rewrite (proj2 (Nat.ltb_lt _ _) Hs). reflexivity.
Qed.




(** X16: the type registry of [getTypeByName] is empty, so every name is
    unknown, the list of available types is empty, and the [schema]
    command fails with [failed to get type] whatever its flags. *)
Theorem schema_always_fails (Sprint_v : GoValue -> string) (Type_String : RType -> string)
    (WriteFile : string -> string -> option string) (typeName format output : string) :
  getTypeByName Type_String typeName =
    inr ("unknown type: " ++ typeName ++ nl ++ nl ++ "Available types:" ++ nl) /\
  schema_RunE Sprint_v Type_String WriteFile typeName format output =
    CmdErr (ErrGetType typeName
      ("unknown type: " ++ typeName ++ nl ++ nl ++ "Available types:" ++ nl)).
Proof.
  assert (H : getTypeByName Type_String typeName =
    inr ("unknown type: " ++ typeName ++ nl ++ nl ++ "Available types:" ++ nl)).
  { unfold getTypeByName. rewrite lookup_empty, map_to_list_empty. reflexivity. }
  split; [exact H |]. unfold schema_RunE. rewrite H. reflexivity.
Qed.

Lemma Sprintf_2f_pos (v : float) : (0 <? v)%float = true -> no_byte "-" (Sprintf_2f v) = true.
Proof.
  intros H. destruct (nan_dec v) as [Hv | Hv]; [rewrite ltb_nan in H; auto; discriminate |].
  assert (H0 : Prim2SF 0%float = S754_zero false) by reflexivity.
  apply ltb_key in H; [| rewrite H0; discriminate | assumption].
  rewrite H0 in H. unfold Sprintf_2f.
  assert (Hd : forall z, no_byte "-" (Z_decimal z) = true)
    by (intros; apply Z_decimal_no_byte; reflexivity).
  destruct (Prim2SF v) as [s | s | | s m e]; try destruct s; simpl in H; try lia;
    try congruence; try reflexivity.
  cbn [append]. rewrite !no_byte_app, !Hd. reflexivity.
Qed.

(** X21: [Range.String] of a range with positive bounds splits on ["-"]
    into the two [%.2f] texts; with a negative maximum the split gives an
    empty second part, so the text is not split back into the bounds. *)
Theorem Range_String_Split (r : Range) :
  ((0 <? r_Min r)%float = true -> (0 <? r_Max r)%float = true ->
     Split (Range_String r) "-" = [Sprintf_2f (r_Min r); Sprintf_2f (r_Max r)]) /\
  ((0 <? r_Min r)%float = true -> (r_Max r <? 0)%float = true ->
     exists rest, Split (Range_String r) "-" = Sprintf_2f (r_Min r) :: "" :: rest).
Proof.
  split.
  - intros Hmin Hmax. unfold Range_String. change ("-" ++ ?x) with (String "-" x).
    rewrite Split_app_sep by (apply Sprintf_2f_pos; exact Hmin).
    rewrite Split_no_byte by (apply Sprintf_2f_pos; exact Hmax). reflexivity.
  - intros Hmin Hmax. unfold Range_String. change ("-" ++ ?x) with (String "-" x).
    rewrite Split_app_sep by (apply Sprintf_2f_pos; exact Hmin).
    destruct (Sprintf_2f_neg _ Hmax) as [t ->]. cbn [Split]. rewrite Ascii.eqb_refl.
    eexists. reflexivity.
Qed.

(** X22: every result of [ColorCode] and of [TrendIndicator] starts with the
    byte [0xC3], so none of them is a four-byte UTF-8 sequence such as an
    emoji, which starts with [0xF0]. *)
Theorem ColorCode_TrendIndicator_bytes (sentiment : string) (current previous : float)
    (l : list nat) :
  (exists r, ColorCode sentiment = String (ascii_of_nat 195) r) /\
  (exists r, TrendIndicator current previous = String (ascii_of_nat 195) r) /\
  ColorCode sentiment <> bytes (240%nat :: l) /\
  TrendIndicator current previous <> bytes (240%nat :: l).
Proof.
  assert (Hc : exists r, ColorCode sentiment = String (ascii_of_nat 195) r).
  { unfold ColorCode. repeat match goal with |- context [if ?b then _ else _] => destruct b end;
    eexists; reflexivity. }
  assert (Ht : exists r, TrendIndicator current previous = String (ascii_of_nat 195) r).
  { unfold TrendIndicator. destruct (previous <? current)%float; [| destruct (current <? previous)%float];
    eexists; reflexivity. }
  split; [exact Hc |]. split; [exact Ht |].
  destruct Hc as [r1 ->], Ht as [r2 ->]. split; intros H; cbn [bytes fold_right] in H; injection H as H _; vm_compute in H; congruence.
Qed.

End FuncFacts.

Module EngineExtra.
Import Engine.

Section Lemmas.
Context {Program : Type}.
Variable jet_parse : string -> option Program.

Lemma GetTemplate_engine_frame (path : string) (st s' : State Program) r :
  GetTemplate jet_parse path st = (r, s') ->
  e_globals _ (st_engine _ s') = e_globals _ (st_engine _ st) /\
  e_funcs _ (st_engine _ s') = e_funcs _ (st_engine _ st) /\
  (forall c, r = inr c ->
     st_engine _ s' = st_engine _ st /\ st_heap _ s' = st_heap _ st /\
     st_next_addr _ s' = st_next_addr _ st).
Proof.
  destruct st as [[dev cache globals funcs] files reads heap na ni].
  unfold GetTemplate, read_source, fresh_id, set_engine, bind, ret, get, put.
  cbn [st_engine st_files st_reads st_heap st_next_addr st_next_id
       e_dev e_cache e_globals e_funcs].
  destruct dev; cbn.
  - destruct (files !! path) as [src |]; cbn.
    + destruct (jet_parse src) as [prog |]; cbn; intros H; injection H as <- <-; cbn;
        repeat split; discriminate.
    + intros H; injection H as <- <-; cbn. auto.
  - destruct (cache !! path) as [t' |]; cbn.
    + intros H. injection H as <- <-. cbn. repeat split; discriminate.
    + destruct (files !! path) as [src |]; cbn.
      * destruct (jet_parse src) as [prog |]; cbn; intros H; injection H as <- <-; cbn;
          repeat split; discriminate.
      * intros H; injection H as <- <-; cbn. auto.
Qed.


Lemma add_globals_union (l : list (string * GoValue)) (g : gmap string GoValue) :
  NoDup l.*1 -> add_globals l g = list_to_map l ∪ g.
Proof.
  revert g. induction l as [| [k v] l IH]; intros g Hnd; cbn.
  - rewrite map_empty_union. reflexivity.
  - apply NoDup_cons in Hnd as [Hk Hnd]. cbn in IH. rewrite IH by exact Hnd.
    rewrite <- insert_union_r by (apply not_elem_of_list_to_map_1; exact Hk).
    rewrite insert_union_l. reflexivity.
Qed.

Lemma AddFuncs_state (l : list (string * GoValue)) (st : State Program) :
  AddFuncs l st =
    (tt, set_engine st (mkJetEngine _ (e_dev _ (st_engine _ st)) (e_cache _ (st_engine _ st))
           (add_globals l (e_globals _ (st_engine _ st)))
           (add_globals l (e_funcs _ (st_engine _ st))))).
Proof.
  revert st. induction l as [| [k v] l IH]; intros st.
  - destruct st as [[dev cache globals funcs] files reads heap na ni]. reflexivity.
  - cbn [AddFuncs]. unfold bind at 1. unfold AddFunc at 1, bind, get, put.
    rewrite IH. destruct st as [[dev cache globals funcs] files reads heap na ni]. reflexivity.
Qed.

End Lemmas.




(** X19: [AddFuncs] gives the same state whatever order the [range]
    statement visits the map in: the [funcs] map and the globals both become
    the added map laid over the old ones. *)
Theorem AddFuncs_any_order {Program : Type} (m : gmap string GoValue)
    (l1 l2 : list (string * GoValue)) (st : State Program) :
  l1 ≡ₚ map_to_list m -> l2 ≡ₚ map_to_list m ->
  AddFuncs l1 st = AddFuncs l2 st /\
  e_funcs _ (st_engine _ (snd (AddFuncs l1 st))) = m ∪ e_funcs _ (st_engine _ st) /\
  e_globals _ (st_engine _ (snd (AddFuncs l1 st))) = m ∪ e_globals _ (st_engine _ st).
Proof.
  assert (Hl : forall l g, l ≡ₚ map_to_list m -> add_globals l g = m ∪ g).
  { intros l g Hp. assert (Hnd : NoDup l.*1).
    { rewrite Hp. apply NoDup_fst_map_to_list. }
    rewrite add_globals_union by exact Hnd. f_equal.
    rewrite (list_to_map_proper l (map_to_list m)) by assumption.
    apply list_to_map_to_list. }
  intros H1 H2. rewrite !AddFuncs_state. cbn.
  rewrite !(Hl l1), !(Hl l2) by assumption.
  destruct st as [[dev cache globals funcs] files reads heap na ni]. cbn. auto.
Qed.

(** X20: a failing [Load] returns [ErrLoad] for its path and changes neither
    the engine nor the heap; a successful one stores [Template{Name: path,
    Path: path}] with a non-nil [jet] at a fresh address, and rendering that
    template never reports [invalid template]: it gives the output, or an
    empty output and an error that names the path. *)
Theorem Load_then_Render {Program : Type} (jet_parse : string -> option Program)
    (jet_execute : Program -> gmap string GoValue -> GoValue -> string + string)
    (path : string) (st : State Program) :
  (forall err st1, Load jet_parse path st = (inr err, st1) ->
     (exists cause, err = ErrLoad path cause) /\
     st_engine _ st1 = st_engine _ st /\ st_heap _ st1 = st_heap _ st /\
     st_next_addr _ st1 = st_next_addr _ st) /\
  (forall a st1, Load jet_parse path st = (inl a, st1) ->
     a = st_next_addr _ st /\
     exists jt,
       st_heap _ st1 = <[a := mkTemplate _ path path "" (Some jt)]> (st_heap _ st) /\
       forall data,
         (exists out, Render jet_execute (Some (mkTemplate _ path path "" (Some jt))) data st1 =
                        ((out, None), st1)) \/
         (exists cause, Render jet_execute (Some (mkTemplate _ path path "" (Some jt))) data st1 =
                          (("", Some (ErrRender path cause)), st1))).
Proof.
  split.
  - intros err st1. unfold Load, bind at 1.
    destruct (GetTemplate jet_parse path st) as [[t | c] s'] eqn:G.
    + unfold alloc, bind, get, put, ret. discriminate.
    + intros H. injection H as <- <-.
      destruct (GetTemplate_engine_frame jet_parse path st s' (inr c) G) as [_ [_ Hfr]].
      destruct (Hfr c eq_refl) as [He [Hh Hn]].
      split; [exists c; reflexivity | auto].
  - intros a st1 HL.
    destruct (EngineFacts.Load_ok_inv jet_parse path st st1 a HL) as [t [s' [G [Ha ->]]]].
    destruct (EngineFacts.GetTemplate_inl_frame jet_parse path st s' t G) as [Hn [Hh _]].
    split; [congruence |]. exists t. cbn [st_heap]. split; [rewrite Hh; reflexivity |].
    intros data. unfold Render, bind, get, ret. cbn [tp_jet tp_Name].
    destruct (jet_execute _ _ data) as [out | cause]; [left; exists out | right; exists cause];
      reflexivity.
Qed.

End EngineExtra.

(** ** Witnesses *)

Lemma Default_spec_witness :
  wide_numeric_zero (VInt 0) = false /\
  ((default_handled_zero (VInt 0) = true -> Default (VString "n/a") (VInt 0) = VString "n/a") /\
   (default_handled_zero (VInt 0) = false -> Default (VString "n/a") (VInt 0) = VInt 0)).
Proof. split; [reflexivity | apply Default_spec; reflexivity]. Defined.

Lemma Generate_JSONName_witness :
  let doc := mkTypeDoc "CoinData" "" (map fieldDocOf (List.filter IsExported sample_fields)) in
  let fd := fieldDocOf (mkStructField "Price" "" "float64"
                          [("json", "price,omitempty"); ("schema", "required")]) in
  (Some sample_record = Some (TStruct "CoinData" sample_fields) \/
   Some sample_record = Some (TPtr (TStruct "CoinData" sample_fields))) /\
  Generate (Some sample_record) = GenOk doc /\ In fd (td_Fields doc) /\
  exists f, In f sample_fields /\ IsExported f = true /\ fd = fieldDocOf f /\
    fd_Name fd = sf_Name f /\
    (tag_Get (sf_Tag f) "json" = "" -> fd_JSONName fd = "") /\
    (tag_Get (sf_Tag f) "json" <> "" ->
       exists rest, tag_Get (sf_Tag f) "json" = fd_JSONName fd ++ rest /\
         no_byte "," (fd_JSONName fd) = true /\
         (rest = "" \/ exists r, rest = String "," r)).
Proof.
  intros doc fd.
  assert (Hv : Some sample_record = Some (TStruct "CoinData" sample_fields) \/
               Some sample_record = Some (TPtr (TStruct "CoinData" sample_fields)))
    by (left; reflexivity).
  assert (H : Generate (Some sample_record) = GenOk doc) by reflexivity.
  assert (Hin : In fd (td_Fields doc)) by (simpl; auto).
  split; [exact Hv | split; [exact H | split; [exact Hin |]]].
  exact (Generate_JSONName (Some sample_record) "CoinData" sample_fields doc fd Hv H Hin).
Defined.

Lemma Generate_exported_fields_witness :
  (sample_record = TStruct "CoinData" sample_fields \/
   sample_record = TPtr (TStruct "CoinData" sample_fields)) /\
  map sf_Name (List.filter IsExported sample_fields) = ["Symbol"; "Price"; "Note"] /\
  exists doc, Generate (Some sample_record) = GenOk doc /\
    td_Fields doc = map fieldDocOf (List.filter IsExported sample_fields) /\
    map fd_Name (td_Fields doc) = map sf_Name (List.filter IsExported sample_fields).
Proof.
  split; [left; reflexivity | split; [reflexivity |]].
  apply (Generate_exported_fields sample_record "CoinData" sample_fields).
  left; reflexivity.
Defined.

Lemma Generate_Required_witness :
  let doc := mkTypeDoc "CoinData" "" (map fieldDocOf (List.filter IsExported sample_fields)) in
  let fd := fieldDocOf (mkStructField "Price" "" "float64"
                          [("json", "price,omitempty"); ("schema", "required")]) in
  (Some sample_record = Some (TStruct "CoinData" sample_fields) \/
   Some sample_record = Some (TPtr (TStruct "CoinData" sample_fields))) /\
  Generate (Some sample_record) = GenOk doc /\ In fd (td_Fields doc) /\
  exists f, In f sample_fields /\ IsExported f = true /\ fd = fieldDocOf f /\
    fd_Name fd = sf_Name f /\
    (fd_Required fd = true <->
       exists a b, tag_Get (sf_Tag f) "schema" = a ++ "required" ++ b) /\
    (tag_Has (sf_Tag f) "schema" = false -> fd_Required fd = false).
Proof.
  intros doc fd.
  assert (Hv : Some sample_record = Some (TStruct "CoinData" sample_fields) \/
               Some sample_record = Some (TPtr (TStruct "CoinData" sample_fields)))
    by (left; reflexivity).
  assert (H : Generate (Some sample_record) = GenOk doc) by reflexivity.
  assert (Hin : In fd (td_Fields doc)) by (simpl; auto).
  split; [exact Hv | split; [exact H | split; [exact Hin |]]].
  exact (Generate_Required (Some sample_record) "CoinData" sample_fields doc fd Hv H Hin).
Defined.

Module EngineWitnesses.
Import Engine.

Lemma Load_twice_witness :
  let st := demo_state false in
  let st1 := snd (Load demo_parse "t.jet" st) in
  let st2 := snd (Load demo_parse "t.jet" st1) in
  Load demo_parse "t.jet" st = (inl 1%positive, st1) /\
  Load demo_parse "t.jet" st1 = (inl 2%positive, st2) /\
  (1%positive <> 2%positive /\
   (e_dev _ (st_engine _ st) = false ->
      st_reads _ st2 = st_reads _ st1 /\
      exists jt, st_heap _ st2 !! 1%positive = Some (mkTemplate _ "t.jet" "t.jet" "" (Some jt)) /\
                 st_heap _ st2 !! 2%positive = Some (mkTemplate _ "t.jet" "t.jet" "" (Some jt))) /\
   (e_dev _ (st_engine _ st) = true ->
      st_reads _ st1 = (st_reads _ st ++ ["t.jet"])%list /\
      st_reads _ st2 = (st_reads _ st1 ++ ["t.jet"])%list /\
      exists jt1 jt2,
        st_heap _ st2 !! 1%positive = Some (mkTemplate _ "t.jet" "t.jet" "" (Some jt1)) /\
        st_heap _ st2 !! 2%positive = Some (mkTemplate _ "t.jet" "t.jet" "" (Some jt2)) /\
        jt_id _ jt1 <> jt_id _ jt2)).
Proof.
  intros st st1 st2.
  assert (H1 : Load demo_parse "t.jet" st = (inl 1%positive, st1)) by (vm_compute; reflexivity).
  assert (H2 : Load demo_parse "t.jet" st1 = (inl 2%positive, st2)) by (vm_compute; reflexivity).
  split; [exact H1 | split; [exact H2 |]].
  exact (EngineFacts.Load_twice demo_parse "t.jet" st st1 st2 1%positive 2%positive H1 H2).
Defined.

Lemma Render_invalid_template_witness :
  let t := mkTemplate string "t.jet" "t.jet" "" None in
  (Some t = None \/ exists t', Some t = Some t' /\ tp_jet _ t' = None) /\
  Render (fun (_ : string) _ _ => inl "") (Some t) (VString "Alice") (demo_state false) =
    (("", Some ErrInvalidTemplate), demo_state false) /\
  error_message ErrInvalidTemplate = "invalid template".
Proof.
  intros t.
  assert (H : Some t = None \/ exists t', Some t = Some t' /\ tp_jet _ t' = None)
    by (right; exists t; split; reflexivity).
  split; [exact H |].
  exact (EngineFacts.Render_invalid_template (fun (_ : string) _ _ => inl "")
           (Some t) (VString "Alice") (demo_state false) H).
Defined.

End EngineWitnesses.

Module ExtraWitnesses.
Import Engine.

Lemma FormatFloat_digits_witness :
  (0 <= 3)%Z /\ (3 / 10 <= 1000000)%Z /\ Prim2SF 1.5%float = S754_finite false 6755399441055744 (-52) /\
  exists n : Z,
    FormatFloat (fun _ _ => "") 1.5%float 3 =
      (if false then "-" else "") ++ Z_decimal (n / 10 ^ 3)%Z ++
      (if Z.eqb 3 0 then "" else "." ++ digits_fixed (Z.to_nat 3) (n mod 10 ^ 3)%Z) /\
    String.length (digits_fixed (Z.to_nat 3) (n mod 10 ^ 3)%Z) = Z.to_nat 3 /\
    (0 <= -52 -> n = Zpos 6755399441055744 * 10 ^ 3 * 2 ^ (-52))%Z /\
    (-52 < 0 -> Z.abs (2 * (n * 2 ^ (- -52) - Zpos 6755399441055744 * 10 ^ 3)) <= 2 ^ (- -52))%Z.
Proof.
  assert (H1 : (0 <= 3)%Z) by lia. assert (H2 : (3 / 10 <= 1000000)%Z) by (apply Z.leb_le; reflexivity).
  assert (H3 : Prim2SF 1.5%float = S754_finite false 6755399441055744 (-52)) by reflexivity.
  split; [exact H1 | split; [exact H2 | split; [exact H3 |]]].
  exact (FuncFacts.FormatFloat_digits (fun _ _ => "") 1.5%float 3 false 6755399441055744 (-52) H1 H2 H3).
Defined.

Lemma JoinStrings_Split_witness :
  ["BTC"; "ETH"] <> [] /\ Forall (fun x => no_byte "," x = true) ["BTC"; "ETH"] /\
  Split (JoinStrings ["BTC"; "ETH"] (String "," "")) "," = ["BTC"; "ETH"].
Proof.
  assert (H1 : ["BTC"; "ETH"] <> []) by discriminate.
  assert (H2 : Forall (fun x => no_byte "," x = true) ["BTC"; "ETH"])
    by (repeat constructor).
  split; [exact H1 | split; [exact H2 |]].
  exact (FuncFacts.JoinStrings_Split ["BTC"; "ETH"] "," H1 H2).
Defined.

Lemma JoinInts_injective_witness :
  JoinInts [1; -20; 0]%Z "," = JoinInts [1; -20; 0]%Z "," /\ [1; -20; 0]%Z = [1; -20; 0]%Z.
Proof.
  assert (H : JoinInts [1; -20; 0]%Z "," = JoinInts [1; -20; 0]%Z ",") by reflexivity.
  split; [exact H | exact (FuncFacts.JoinInts_injective _ _ H)].
Defined.



Lemma AddFuncs_any_order_witness :
  let m : gmap string GoValue := <["min" := VString "custom"]> {[ "upper" := VString "strings.ToUpper" ]} in
  let st := demo_state false in
  map_to_list m ≡ₚ map_to_list m /\ rev (map_to_list m) ≡ₚ map_to_list m /\
  AddFuncs (map_to_list m) st = AddFuncs (rev (map_to_list m)) st /\
  e_funcs _ (st_engine _ (snd (AddFuncs (map_to_list m) st))) = m ∪ e_funcs _ (st_engine _ st) /\
  e_globals _ (st_engine _ (snd (AddFuncs (map_to_list m) st))) = m ∪ e_globals _ (st_engine _ st).
Proof.
  intros m st.
  assert (H1 : map_to_list m ≡ₚ map_to_list m) by reflexivity.
  assert (H2 : rev (map_to_list m) ≡ₚ map_to_list m) by (symmetry; apply Permutation_rev).
  split; [exact H1 | split; [exact H2 |]].
  exact (EngineExtra.AddFuncs_any_order m (map_to_list m) (rev (map_to_list m)) st H1 H2).
Defined.

End ExtraWitnesses.
